(** * AWS Resource Health Checker: a shallow embedding of [health_checker.py]

    The program queries EC2 instances and CloudWatch alarms, prints a
    report and optionally persists it as JSON.  The embedding follows the
    source function by function:

    - Python [str] values are byte strings holding their UTF-8 encoding
      (equality and concatenation of [str] are those of the encodings);
    - Python [int] values are [Z], so that [total - running - stopped] is
      the subtraction of the source and not a truncated one;
    - [print] and [open(...)/json.dump] are events of a small writer monad;
      a call that can end with an exception nobody catches returns an
      [outcome];
    - the two [status_icons] dictionaries are finite maps read with [.get];
    - the dictionary returned by [generate_summary] is an association list
      in insertion order, which is also the order [json.dump] writes. *)

From Stdlib Require Import ZArith Ascii String DecimalString DecimalZ DecimalPos.
From stdpp Require Import base tactics option list strings gmap.

Local Open Scope Z_scope.
Local Open Scope string_scope.
Local Open Scope list_scope.

(** ** Python primitives used by the source *)

Module Py.

(** ["\n"] and [s * n]. *)
Definition nl : string := String (ascii_of_nat 10) "".

Fixpoint str_mul (s : string) (n : nat) : string :=
  match n with
  | O => ""
  | S n' => s +:+ str_mul s n'
  end.

(** [str(n)] of an [int], as used by the f-strings and by [json.dump]. *)
Definition str_of_int (n : Z) : string := NilZero.string_of_int (Z.to_int n).

(** [len(l)]. *)
Definition len {A} (l : list A) : Z := Z.of_nat (length l).

(** [sum(iterable)]: a left fold from 0. *)
Definition sum (l : list Z) : Z := foldl Z.add 0 l.

(** The generator [1 for x in l if p x]. *)
Definition ones_if {A} (P : A → Prop) `{∀ x, Decision (P x)} (l : list A) : list Z :=
  (λ _, 1) <$> filter P l.

(** A dictionary display [{k1: v1, ...}]: keys are bound left to right. *)
Definition dict_display (items : list (string * string)) : gmap string string :=
  foldl (λ m kv, <[kv.1 := kv.2]> m) ∅ items.

(** [d.get(k, dflt)]. *)
Definition get (d : gmap string string) (k dflt : string) : string :=
  default dflt (d !! k).

End Py.

(** ** Effects: printed lines and written files *)

Inductive event : Type :=
  | Print (text : string)
  | WriteFile (filename content : string).

Record IO (A : Type) : Type := MkIO { trace : list event; value : A }.
Arguments MkIO {A} _ _.
Arguments trace {A} _.
Arguments value {A} _.

#[global] Instance IO_ret : MRet IO := λ A a, MkIO [] a.
#[global] Instance IO_bind : MBind IO := λ A B k m,
  let r := k (value m) in MkIO (trace m ++ trace r) (value r).

Definition print (text : string) : IO unit := MkIO [Print text] tt.

(** [for x in l: body], threading the loop's mutable state [s]. *)
Fixpoint for_each {A S} (l : list A) (body : A → S → IO S) (s : S) : IO S :=
  match l with
  | [] => mret s
  | x :: rest => s' ← body x s; for_each rest body s'
  end.

(** How a call ends: with a value, or with an exception that nothing in
    the program catches (the string is the exception's class). *)
Inductive outcome (A : Type) : Type :=
  | Returned (a : A)
  | Raised (exception : string).
Arguments Returned {A} _.
Arguments Raised {A} _.

Definition raise {A} (exception : string) : IO (outcome A) := mret (Raised exception).

(** Sequencing of calls that may raise: an exception ends the sequence. *)
Definition and_then {A B} (m : IO (outcome A)) (k : A → IO (outcome B)) : IO (outcome B) :=
  r ← m;
  match r with
  | Returned a => k a
  | Raised exception => raise exception
  end.

Notation "x <~ m ; k" := (and_then m (λ x, k))
  (at level 20, m at level 100, k at level 200, only parsing).

(** [for x in l: body] when the body may raise. *)
Fixpoint for_each_raising {A S} (l : list A) (body : A → S → IO (outcome S)) (s : S)
  : IO (outcome S) :=
  match l with
  | [] => mret (Returned s)
  | x :: rest => s' <~ body x s; for_each_raising rest body s'
  end.

(** The lines a computation printed, in order. *)
Definition printed {A} (m : IO A) : list string :=
  omap (λ e, match e with Print t => Some t | WriteFile _ _ => None end) (trace m).

(** ** Provider data (the shape boto3 documents for the two calls) *)

Record Tag := { Key : string; Value : string }.

Record Instance := {
  InstanceId : string;
  InstanceType : string;
  State_Name : string;            (* instance['State']['Name'] *)
  Tags : option (list Tag)        (* absent when the instance has no tag *)
}.

Record Reservation := { Instances : list Instance }.

Record MetricAlarm := {
  AlarmName : string;
  StateValue : string;
  MetricName : option string;     (* absent for an alarm on a metric math expression *)
  AlarmDescription : option string
}.

(** Outcome of creating the client and calling the API: a response, one
    of the two exceptions the checks catch, or any other exception (a
    [ValueError] for a malformed region, a connection error, ...). *)
Inductive fetched (R : Type) : Type :=
  | Response (r : R)
  | NoCredentialsError
  | ClientError (message : string)     (* e.response['Error']['Message'] *)
  | OtherException (exception : string).
Arguments Response {R} _.
Arguments NoCredentialsError {R}.
Arguments ClientError {R} _.
Arguments OtherException {R} _.

(** ** Internal records

    [instance_info] and [alarm_info] are the dictionaries the two checks
    build; their keys ['state'] and ['name'] are the fields [i_state],
    [i_name] and [a_state], [a_name] here (one name per record type). *)

Record instance_info := {
  instance_id : string;
  instance_type : string;
  i_state : string;
  i_name : string
}.

Record alarm_info := {
  a_name : string;
  a_state : string;
  a_metric : string;
  a_description : string
}.

(** ['=' * 50] *)
Definition rule : string := Py.str_mul "=" 50.

(** ** [check_ec2_instances]

    The function's [region] only reaches the API call; the embedding takes
    the outcome of that call. *)

Definition ec2_status_icons : gmap string string :=
  Py.dict_display
    [ ("running", "✅"); ("stopped", "🛑"); ("pending", "⏳");
      ("stopping", "⏳"); ("terminated", "💀") ].

Definition ec2_status (state : string) : string :=
  Py.get ec2_status_icons state "⚠️".

(** The loop over the tags: the first tag whose key is [Name] sets the
    name and leaves the loop. *)
Fixpoint name_tag_loop (tags : list Tag) (name : string) : string :=
  match tags with
  | [] => name
  | tag :: rest =>
      if decide (Key tag = "Name") then Value tag else name_tag_loop rest name
  end.

Definition make_instance_info (instance : Instance) : instance_info :=
  {| instance_id := InstanceId instance;
     instance_type := InstanceType instance;
     i_state := State_Name instance;
     i_name := name_tag_loop (default [] (Tags instance)) "Unnamed" |}.

Definition ec2_instance_body (instance : Instance) (instances : list instance_info)
  : IO (list instance_info) :=
  let info := make_instance_info instance in
  let instances := instances ++ [info] in
  let status := ec2_status (i_state info) in
  print (status +:+ " " +:+ i_name info +:+ " (" +:+ instance_id info +:+ ")");;
  print ("   Type: " +:+ instance_type info +:+ ", State: " +:+ i_state info);;
  mret instances.

Definition check_ec2_instances (call : fetched (list Reservation))
  : IO (outcome (list instance_info)) :=
  print (Py.nl +:+ rule);;
  print "EC2 INSTANCE STATUS";;
  print rule;;
  match call with
  | NoCredentialsError =>
      print "❌ Error: AWS credentials not configured";;
      print "   Run 'aws configure' to set up credentials";;
      mret (Returned [])
  | ClientError message =>
      print ("❌ Error: " +:+ message);;
      mret (Returned [])
  | OtherException exception => raise exception
  | Response reservations =>
      instances ←
        for_each reservations
          (λ reservation acc, for_each (Instances reservation) ec2_instance_body acc) [];
      (if decide (instances = []) then print "ℹ️  No EC2 instances found in this region."
       else mret tt);;
      mret (Returned instances)
  end.

(** ** [check_cloudwatch_alarms] *)

Definition alarm_status_icons : gmap string string :=
  Py.dict_display
    [ ("OK", "✅"); ("ALARM", "🚨"); ("INSUFFICIENT_DATA", "⚠️") ].

Definition alarm_status (state : string) : string :=
  Py.get alarm_status_icons state "❓".

(** The dictionary display of lines 111-116: [alarm['MetricName']] is a
    subscript and raises [KeyError] when the alarm has no such key, while
    [alarm.get('AlarmDescription', ...)] has a default. *)
Definition make_alarm_info (alarm : MetricAlarm) : outcome alarm_info :=
  match MetricName alarm with
  | Some metric =>
      Returned {| a_name := AlarmName alarm;
                  a_state := StateValue alarm;
                  a_metric := metric;
                  a_description := default "No description" (AlarmDescription alarm) |}
  | None => Raised "KeyError"
  end.

Definition alarm_body (alarm : MetricAlarm) (alarms : list alarm_info)
  : IO (outcome (list alarm_info)) :=
  match make_alarm_info alarm with
  | Raised exception => raise exception
  | Returned info =>
      let alarms := alarms ++ [info] in
      let status := alarm_status (a_state info) in
      print (status +:+ " " +:+ a_name info);;
      print ("   State: " +:+ a_state info +:+ ", Metric: " +:+ a_metric info);;
      mret (Returned alarms)
  end.

Definition check_cloudwatch_alarms (call : fetched (list MetricAlarm))
  : IO (outcome (list alarm_info)) :=
  print (Py.nl +:+ rule);;
  print "CLOUDWATCH ALARM STATUS";;
  print rule;;
  match call with
  | NoCredentialsError =>
      print "❌ Error: AWS credentials not configured";;
      mret (Returned [])
  | ClientError message =>
      print ("❌ Error: " +:+ message);;
      mret (Returned [])
  | OtherException exception => raise exception
  | Response metric_alarms =>
      alarms <~ for_each_raising metric_alarms alarm_body [];
      (if decide (alarms = []) then print "ℹ️  No CloudWatch alarms configured in this region."
       else mret tt);;
      mret (Returned alarms)
  end.

(** ** [generate_summary] *)

(** The local variables of [generate_summary] (lines 151-159). *)
Record tallies := {
  total_instances : Z;
  running : Z;
  stopped : Z;
  other : Z;
  total_alarms : Z;
  alarming : Z;
  ok_alarms : Z
}.

Definition tally (instances : list instance_info) (alarms : list alarm_info) : tallies :=
  let total_instances := Py.len instances in
  let running := Py.sum (Py.ones_if (λ i, i_state i = "running") instances) in
  let stopped := Py.sum (Py.ones_if (λ i, i_state i = "stopped") instances) in
  let other := total_instances - running - stopped in
  let total_alarms := Py.len alarms in
  let alarming := Py.sum (Py.ones_if (λ a, a_state a = "ALARM") alarms) in
  let ok_alarms := Py.sum (Py.ones_if (λ a, a_state a = "OK") alarms) in
  {| total_instances := total_instances; running := running; stopped := stopped;
     other := other; total_alarms := total_alarms; alarming := alarming;
     ok_alarms := ok_alarms |}.

(** The four messages of the overall health assessment. *)
Definition msg_attention : string :=
  "⚠️  ATTENTION: There are active alarms that need investigation!".
Definition msg_healthy : string := "✅ ALL SYSTEMS HEALTHY".
Definition msg_no_resources : string := "ℹ️  No resources found to monitor".
Definition msg_partial : string := "⚠️  Some instances are not running".

(** The [if]/[elif] chain of lines 176-183. *)
Definition assessment (t : tallies) : string :=
  if decide (alarming t > 0) then msg_attention
  else if decide (running t = total_instances t ∧ total_instances t > 0) then msg_healthy
  else if decide (total_instances t = 0 ∧ total_alarms t = 0) then msg_no_resources
  else msg_partial.

(** The dictionary [generate_summary] returns (lines 186-192). *)
Definition summary_dict (t : tallies) : list (string * Z) :=
  [ ("total_instances", total_instances t);
    ("running_instances", running t);
    ("stopped_instances", stopped t);
    ("total_alarms", total_alarms t);
    ("active_alarms", alarming t) ].

Definition generate_summary (instances : list instance_info) (alarms : list alarm_info)
  : IO (list (string * Z)) :=
  print (Py.nl +:+ rule);;
  print "SUMMARY";;
  print rule;;
  let t := tally instances alarms in
  print (Py.nl +:+ "📊 EC2 Instances:");;
  print ("   Total: " +:+ Py.str_of_int (total_instances t));;
  print ("   Running: " +:+ Py.str_of_int (running t));;
  print ("   Stopped: " +:+ Py.str_of_int (stopped t));;
  (if decide (other t > 0) then print ("   Other: " +:+ Py.str_of_int (other t))
   else mret tt);;
  print (Py.nl +:+ "📊 CloudWatch Alarms:");;
  print ("   Total: " +:+ Py.str_of_int (total_alarms t));;
  print ("   OK: " +:+ Py.str_of_int (ok_alarms t));;
  print ("   In Alarm: " +:+ Py.str_of_int (alarming t));;
  print (Py.nl +:+ rule);;
  print (assessment t);;
  print rule;;
  mret (summary_dict t).

(** ** [json.dump(report, f, indent=2)] *)

Module Json.

(** The Python values the report is made of. *)
#[local] Set Warnings "-register-all".
Inductive t : Type :=
  | Int (n : Z)
  | Str (s : string)
  | List (items : list t)
  | Dict (items : list (string * t)).

Definition quote : string := String (ascii_of_nat 34) "".

Definition hex_digit (n : N) : ascii :=
  if (n <? 10)%N then ascii_of_N (48 + n) else ascii_of_N (87 + n).

(** ['\\u{0:04x}'.format(n)] *)
Definition u_escape (n : N) : string :=
  "\u" +:+ String (hex_digit (n / 4096 mod 16)) (String (hex_digit (n / 256 mod 16))
            (String (hex_digit (n / 16 mod 16)) (String (hex_digit (n mod 16)) ""))).

(** The replacement of one character by the encoder of the [json]
    module with [ensure_ascii] (the default): printable ASCII other than
    the quote and the backslash is kept, everything else is escaped. *)
Definition escape_char (n : N) : string :=
  if (n =? 34)%N then "\" +:+ quote
  else if (n =? 92)%N then "\\"
  else if (n =? 8)%N then "\b"
  else if (n =? 12)%N then "\f"
  else if (n =? 10)%N then "\n"
  else if (n =? 13)%N then "\r"
  else if (n =? 9)%N then "\t"
  else if ((32 <=? n) && (n <=? 126))%N then String (ascii_of_N n) ""
  else if (n <? 65536)%N then u_escape n
  else
    let m := (n - 65536)%N in
    u_escape (N.lor 55296 (N.land (N.shiftr m 10) 1023))
      +:+ u_escape (N.lor 56320 (N.land m 1023)).

(** The six payload bits of a continuation byte. *)
Definition cont (b : ascii) : N := N.land (N_of_ascii b) 63.

(** The characters of a [str] are read off its UTF-8 encoding, one to
    four bytes each (a byte string cut inside a character encodes no
    [str]; nothing is written for the broken end). *)
Fixpoint escape (s : string) : string :=
  match s with
  | "" => ""
  | String b0 s1 =>
      let n0 := N_of_ascii b0 in
      if (n0 <? 128)%N then escape_char n0 +:+ escape s1
      else
        match s1 with
        | "" => ""
        | String b1 s2 =>
            if (n0 <? 224)%N then
              escape_char (N.land n0 31 * 64 + cont b1) +:+ escape s2
            else
              match s2 with
              | "" => ""
              | String b2 s3 =>
                  if (n0 <? 240)%N then
                    escape_char (N.land n0 15 * 4096 + cont b1 * 64 + cont b2)
                      +:+ escape s3
                  else
                    match s3 with
                    | "" => ""
                    | String b3 s4 =>
                        escape_char (N.land n0 7 * 262144 + cont b1 * 4096
                                     + cont b2 * 64 + cont b3)
                          +:+ escape s4
                    end
              end
        end
  end.

Definition encode_basestring_ascii (s : string) : string :=
  quote +:+ escape s +:+ quote.

(** ['\n' + indent * level] with [indent = '  ']. *)
Definition newline_indent (level : nat) : string :=
  Py.nl +:+ Py.str_mul "  " level.

(** [sep.join(chunks)]. *)
Fixpoint join (sep : string) (chunks : list string) : string :=
  match chunks with
  | [] => ""
  | [c] => c
  | c :: rest => c +:+ sep +:+ join sep rest
  end.

(** The text written for a value met at nesting depth [level]. *)
Fixpoint dumps (level : nat) (o : t) : string :=
  match o with
  | Int n => Py.str_of_int n
  | Str s => encode_basestring_ascii s
  | List items =>
      match items with
      | [] => "[]"
      | _ =>
          "[" +:+ newline_indent (S level)
            +:+ join ("," +:+ newline_indent (S level))
                  (List.map (dumps (S level)) items)
            +:+ newline_indent level +:+ "]"
      end
  | Dict items =>
      match items with
      | [] => "{}"
      | _ =>
          "{" +:+ newline_indent (S level)
            +:+ join ("," +:+ newline_indent (S level))
                  (List.map (λ kv, let '(k, v) := kv in
                     encode_basestring_ascii k +:+ ": " +:+ dumps (S level) v) items)
            +:+ newline_indent level +:+ "}"
      end
  end.

End Json.

(** ** [save_report] *)

Definition instance_to_json (i : instance_info) : Json.t :=
  Json.Dict [ ("instance_id", Json.Str (instance_id i));
              ("instance_type", Json.Str (instance_type i));
              ("state", Json.Str (i_state i));
              ("name", Json.Str (i_name i)) ].

Definition alarm_to_json (a : alarm_info) : Json.t :=
  Json.Dict [ ("name", Json.Str (a_name a));
              ("state", Json.Str (a_state a));
              ("metric", Json.Str (a_metric a));
              ("description", Json.Str (a_description a)) ].

Definition summary_to_json (summary : list (string * Z)) : Json.t :=
  Json.Dict (List.map (λ kv, (kv.1, Json.Int kv.2)) summary).

Definition report_of (generated_at region : string)
    (instances : list instance_info) (alarms : list alarm_info)
    (summary : list (string * Z)) : Json.t :=
  Json.Dict
    [ ("report_metadata",
       Json.Dict [ ("generated_at", Json.Str generated_at);
                   ("region", Json.Str region);
                   ("tool", Json.Str "AWS Health Checker");
                   ("author", Json.Str "Marvelous Olabinjo") ]);
      ("instances", Json.List (List.map instance_to_json instances));
      ("alarms", Json.List (List.map alarm_to_json alarms));
      ("summary", summary_to_json summary) ].

(** [generated_at] is [datetime.now().isoformat()] at the time of the
    call; [open_error] is the exception [open(filename, 'w')] raises, if
    any (an [OSError] for a path that cannot be written): the function
    does not catch it, writes nothing and prints nothing. *)
Definition save_report (open_error : option string) (generated_at filename region : string)
    (instances : list instance_info) (alarms : list alarm_info)
    (summary : list (string * Z)) : IO (outcome unit) :=
  let report := report_of generated_at region instances alarms summary in
  match open_error with
  | Some exception => raise exception
  | None =>
      MkIO [WriteFile filename (Json.dumps 0 report)] tt;;
      print (Py.nl +:+ "📄 Report saved to: " +:+ filename);;
      mret (Returned tt)
  end.

(** ** [main] *)

(** What the run reads from outside: the parsed command line, the two
    API calls, the file system and the clock. *)
Record args := { region : string; output : option string }.

Definition default_region : string := "eu-west-1".

(** [parser.parse_args()] for the two optional flags. *)
Definition parse_args (region_flag output_flag : option string) : args :=
  {| region := default default_region region_flag; output := output_flag |}.

Record world := {
  describe_instances : string → fetched (list Reservation);
  describe_alarms : string → fetched (list MetricAlarm);
  open_error : string → option string;   (* what open(filename, 'w') raises, if anything *)
  report_time : string;      (* datetime.now().strftime('%Y-%m-%d %H:%M:%S') *)
  generated_at : string      (* datetime.now().isoformat() *)
}.

Definition main (w : world) (a : args) : IO (outcome unit) :=
  print (Py.nl +:+ rule);;
  print "🔍 AWS HEALTH CHECKER";;
  print rule;;
  print ("📅 Report Time: " +:+ report_time w);;
  print ("🌍 Region: " +:+ region a);;
  instances <~ check_ec2_instances (describe_instances w (region a));
  alarms <~ check_cloudwatch_alarms (describe_alarms w (region a));
  summary ← generate_summary instances alarms;
  _ <~ match output a with
       | Some filename =>
           if decide (filename = "") then mret (Returned tt)
           else save_report (open_error w filename) (generated_at w) filename (region a)
                  instances alarms summary
       | None => mret (Returned tt)
       end;
  print (Py.nl +:+ "✅ Health check complete!" +:+ Py.nl);;
  mret (Returned tt).

(** ** Reading a persisted report back *)

Module Reader.

(** Modelled from the spec: the repository only writes the report; the
    parser of "serializing a Summary to the persisted format and parsing
    it back" is absent.  The reader below parses a JSON text made of
    objects, arrays, strings and integers, with JSON white space between
    the tokens, into the same tree [json.dump] is given; it runs character
    by character over a stack of the open arrays and objects.  It is
    lenient on malformed escape sequences and numbers with leading zeros. *)
Inductive frame : Type :=
  | FList (done : list Json.t)                          (* inside an array *)
  | FDict (done : list (string * Json.t))               (* inside an object *)
  | FMember (done : list (string * Json.t)) (key : string). (* after a key *)

Inductive mode : Type :=
  | Value                                 (* before a value *)
  | KeyStart                              (* before a key *)
  | InStr (key : bool) (raw : string)     (* inside a string literal *)
  | InStrEsc (key : bool) (raw : string)  (* after a backslash *)
  | Colon                                 (* after a key *)
  | InNum (lit : string)                  (* inside a number *)
  | AfterItem.                            (* after an item of an array or object *)

Inductive state : Type :=
  | St (m : mode) (stack : list frame)
  | Done (v : Json.t)
  | Reject.

(** Modelled from the spec: JSON white space. *)
Definition is_ws (c : ascii) : bool :=
  let n := N_of_ascii c in
  ((n =? 32) || (n =? 10) || (n =? 13) || (n =? 9))%N.

Definition is_digit (c : ascii) : bool :=
  let n := N_of_ascii c in ((48 <=? n) && (n <=? 57))%N.

Definition is_char (n : N) (c : ascii) : bool := (N_of_ascii c =? n)%N.

(** Modelled from the spec: the integer a number literal denotes. *)
Definition number (lit : string) : option Z :=
  Z.of_int <$> NilZero.int_of_string lit.

(** Modelled from the spec: decoding the body of a string literal.  The
    escapes are undone and the characters are written in UTF-8, a
    surrogate pair as one character. *)
Definition hex_value (c : ascii) : option N :=
  let n := N_of_ascii c in
  if ((48 <=? n) && (n <=? 57))%N then Some (n - 48)%N
  else if ((97 <=? n) && (n <=? 102))%N then Some (n - 87)%N
  else if ((65 <=? n) && (n <=? 70))%N then Some (n - 55)%N
  else None.

Definition utf8 (n : N) : string :=
  if (n <? 128)%N then String (ascii_of_N n) ""
  else if (n <? 2048)%N then
    String (ascii_of_N (192 + n / 64)) (String (ascii_of_N (128 + n mod 64)) "")
  else if (n <? 65536)%N then
    String (ascii_of_N (224 + n / 4096))
      (String (ascii_of_N (128 + n / 64 mod 64)) (String (ascii_of_N (128 + n mod 64)) ""))
  else
    String (ascii_of_N (240 + n / 262144))
      (String (ascii_of_N (128 + n / 4096 mod 64))
         (String (ascii_of_N (128 + n / 64 mod 64)) (String (ascii_of_N (128 + n mod 64)) ""))).

Inductive umode : Type :=
  | UPlain
  | UEsc
  | UHex (k : nat) (acc : N).

(** A high surrogate waits in [high] for its low surrogate. *)
Definition flush (out : string) (high : option N) : string :=
  match high with
  | Some h => out +:+ utf8 h
  | None => out
  end.

Definition code_unit (out : string) (high : option N) (u : N) : string * option N :=
  let is_high := ((55296 <=? u) && (u <? 56320))%N in
  let is_low := ((56320 <=? u) && (u <? 57344))%N in
  match high with
  | Some h =>
      if is_low then (out +:+ utf8 (65536 + (h - 55296) * 1024 + (u - 56320)), None)
      else if is_high then (out +:+ utf8 h, Some u)
      else (out +:+ utf8 h +:+ utf8 u, None)
  | None => if is_high then (out, Some u) else (out +:+ utf8 u, None)
  end.

Definition simple_escape (c : ascii) : ascii :=
  let n := N_of_ascii c in
  if (n =? 110)%N then ascii_of_N 10
  else if (n =? 114)%N then ascii_of_N 13
  else if (n =? 116)%N then ascii_of_N 9
  else if (n =? 98)%N then ascii_of_N 8
  else if (n =? 102)%N then ascii_of_N 12
  else c.

Definition ustep (st : string * option N * umode) (c : ascii) : string * option N * umode :=
  let '(out, high, m) := st in
  match m with
  | UPlain =>
      if is_char 92 c then (out, high, UEsc)
      else (flush out high +:+ String c "", None, UPlain)
  | UEsc =>
      if is_char 117 c then (out, high, UHex 0 0)
      else (flush out high +:+ String (simple_escape c) "", None, UPlain)
  | UHex k acc =>
      match hex_value c with
      | None => (flush out high, None, UPlain)
      | Some d =>
          let u := (acc * 16 + d)%N in
          if Nat.eqb k 3 then
            let '(out', high') := code_unit out high u in (out', high', UPlain)
          else (out, high, UHex (S k) u)
      end
  end.

Fixpoint urun (st : string * option N * umode) (s : string) : string * option N * umode :=
  match s with
  | "" => st
  | String c s' => urun (ustep st c) s'
  end.

Definition unescape (raw : string) : string :=
  let '(out, high, _) := urun ("", None, UPlain) raw in flush out high.

(** Modelled from the spec: a completed value goes to the array or the
    object member that waits for it, or is the document. *)
Definition finish (v : Json.t) (stack : list frame) : state :=
  match stack with
  | [] => Done v
  | FList done :: s => St AfterItem (FList (done ++ [v]) :: s)
  | FMember done key :: s => St AfterItem (FDict (done ++ [(key, v)]) :: s)
  | FDict _ :: _ => Reject
  end.

(** The first character of a value. *)
Definition start_value (stack : list frame) (c : ascii) : state :=
  if is_char 34 c then St (InStr false "") stack
  else if is_char 91 c then St Value (FList [] :: stack)
  else if is_char 123 c then St KeyStart (FDict [] :: stack)
  else if is_char 45 c || is_digit c then St (InNum (String c "")) stack
  else Reject.

(** A character after a completed value. *)
Definition step_after (st : state) (c : ascii) : state :=
  if is_ws c then
    match st with
    | St AfterItem _ | Done _ => st
    | _ => Reject
    end
  else
    match st with
    | St AfterItem (FList done :: s) =>
        if is_char 44 c then St Value (FList done :: s)
        else if is_char 93 c then finish (Json.List done) s
        else Reject
    | St AfterItem (FDict done :: s) =>
        if is_char 44 c then St KeyStart (FDict done :: s)
        else if is_char 125 c then finish (Json.Dict done) s
        else Reject
    | _ => Reject
    end.

(** Modelled from the spec: one character of the persisted text. *)
Definition step (st : state) (c : ascii) : state :=
  match st with
  | St (InStr key raw) stack =>
      if is_char 34 c then
        if key then
          match stack with
          | FDict done :: s => St Colon (FMember done (unescape raw) :: s)
          | _ => Reject
          end
        else finish (Json.Str (unescape raw)) stack
      else if is_char 92 c then St (InStrEsc key (raw +:+ String c "")) stack
      else St (InStr key (raw +:+ String c "")) stack
  | St (InStrEsc key raw) stack => St (InStr key (raw +:+ String c "")) stack
  | St (InNum lit) stack =>
      if is_digit c then St (InNum (lit +:+ String c "")) stack
      else
        match number lit with
        | Some n => step_after (finish (Json.Int n) stack) c
        | None => Reject
        end
  | St Value stack =>
      if is_ws c then st
      else if is_char 93 c then
        match stack with
        | FList [] :: s => finish (Json.List []) s
        | _ => Reject
        end
      else start_value stack c
  | St KeyStart stack =>
      if is_ws c then st
      else if is_char 34 c then St (InStr true "") stack
      else if is_char 125 c then
        match stack with
        | FDict [] :: s => finish (Json.Dict []) s
        | _ => Reject
        end
      else Reject
  | St Colon stack =>
      if is_ws c then st
      else if is_char 58 c then St Value stack
      else Reject
  | St AfterItem _ | Done _ => step_after st c
  | Reject => Reject
  end.

Fixpoint run (st : state) (s : string) : state :=
  match s with
  | "" => st
  | String c s' => run (step st c) s'
  end.

(** Modelled from the spec: parsing a persisted text back; [None] when
    the text is not a JSON value of this kind. *)
Definition loads (s : string) : option Json.t :=
  match run (St Value []) s with
  | Done v => Some v
  | St (InNum lit) [] => Json.Int <$> number lit
  | _ => None
  end.

(** The member of an object a key names (the last one, as in a Python
    dictionary). *)
Fixpoint member (key : string) (items : list (string * Json.t)) : option Json.t :=
  match items with
  | [] => None
  | (k, v) :: rest =>
      match member key rest with
      | Some v' => Some v'
      | None => if decide (k = key) then Some v else None
      end
  end.

Fixpoint integers (items : list (string * Json.t)) : option (list (string * Z)) :=
  match items with
  | [] => Some []
  | (k, Json.Int n) :: rest => cons (k, n) <$> integers rest
  | _ => None
  end.

(** Modelled from the spec: the Summary of a parsed report, the object
    of integers under the key [summary]. *)
Definition summary (document : Json.t) : option (list (string * Z)) :=
  match document with
  | Json.Dict items =>
      match member "summary" items with
      | Some (Json.Dict members) => integers members
      | _ => None
      end
  | _ => None
  end.

End Reader.

(** ** The specification's reading of the overall status *)

Module Spec.

Inductive overall_status : Type := HEALTHY | ATTENTION | NO_RESOURCES | PARTIAL.

Definition alarming_count (alarms : list alarm_info) : Z :=
  Z.of_nat (length (filter (λ a, a_state a = "ALARM") alarms)).

Definition running_instances (instances : list instance_info) : Z :=
  Z.of_nat (length (filter (λ i, i_state i = "running") instances)).

Definition stopped_instances (instances : list instance_info) : Z :=
  Z.of_nat (length (filter (λ i, i_state i = "stopped") instances)).

Definition ok_count (alarms : list alarm_info) : Z :=
  Z.of_nat (length (filter (λ a, a_state a = "OK") alarms)).

(** The priority list of section 4.2, first match wins. *)
Definition priority (instances : list instance_info) (alarms : list alarm_info)
  : overall_status :=
  if (alarming_count alarms >? 0)%Z then ATTENTION
  else if ((Py.len instances >? 0) && (running_instances instances =? Py.len instances))%Z
  then HEALTHY
  else if ((Py.len instances =? 0) && (Py.len alarms =? 0))%Z then NO_RESOURCES
  else PARTIAL.

(** The fields section 3 gives a Summary. *)
Definition summary_fields : list string :=
  [ "total_instances"; "running_instances"; "stopped_instances"; "other_instances";
    "total_alarms"; "ok_alarms"; "alarming_count"; "overall_status" ].

End Spec.

(** The message the program prints for each status. *)
Definition status_message (s : Spec.overall_status) : string :=
  match s with
  | Spec.ATTENTION => msg_attention
  | Spec.HEALTHY => msg_healthy
  | Spec.NO_RESOURCES => msg_no_resources
  | Spec.PARTIAL => msg_partial
  end.

(** ** Sample data *)

Definition record_in (state : string) : instance_info :=
  {| instance_id := "i-0abc"; instance_type := "t3.micro"; i_state := state;
     i_name := "web" |}.

Definition record_of (id name state : string) : instance_info :=
  {| instance_id := id; instance_type := "t3.micro"; i_state := state; i_name := name |}.

Definition alarm_of (name state : string) : alarm_info :=
  {| a_name := name; a_state := state; a_metric := "CPUUtilization";
     a_description := "No description" |}.

Definition alarm_in (state : string) : alarm_info :=
  {| a_name := "cpu-high"; a_state := state; a_metric := "CPUUtilization";
     a_description := "No description" |}.

(** Three provider instances: no [Tags] entry, tags without a [Name], and
    two [Name] tags after another tag; the last one is in a state the
    indicator table does not know. *)
Definition sample_reservations : list Reservation :=
  [ {| Instances :=
         [ {| InstanceId := "i-01"; InstanceType := "t3.micro";
              State_Name := "running"; Tags := None |};
           {| InstanceId := "i-02"; InstanceType := "t3.small";
              State_Name := "stopped";
              Tags := Some [ {| Key := "Env"; Value := "prod" |} ] |} ] |};
    {| Instances :=
         [ {| InstanceId := "i-03"; InstanceType := "m5.large";
              State_Name := "shutting-down";
              Tags := Some [ {| Key := "Env"; Value := "dev" |};
                             {| Key := "Name"; Value := "db" |};
                             {| Key := "Name"; Value := "shadow" |} ] |} ] |} ].

(** Three alarms of a response; the second one is on a metric math
    expression and has no [MetricName]. *)
Definition sample_alarms : list MetricAlarm :=
  [ {| AlarmName := "cpu-high"; StateValue := "ALARM";
       MetricName := Some "CPUUtilization"; AlarmDescription := None |};
    {| AlarmName := "error-rate"; StateValue := "OK";
       MetricName := None; AlarmDescription := Some "errors / requests" |};
    {| AlarmName := "disk-full"; StateValue := "OK";
       MetricName := Some "DiskSpaceUtilization"; AlarmDescription := None |} ].

Definition remediation_hint : string := "   Run 'aws configure' to set up credentials".

(** A run without credentials for EC2 and with a throttled alarm call. *)
Definition offline : world :=
  {| describe_instances := λ _, NoCredentialsError;
     describe_alarms := λ _, ClientError "Rate exceeded";
     open_error := λ _, None;
     report_time := "2024-05-01 09:30:00";
     generated_at := "2024-05-01T09:30:00.123456" |}.

(** Two states of the local variables that differ only in counts the
    returned dictionary does not hold. *)
Definition tallies_a : tallies :=
  {| total_instances := 3; running := 2; stopped := 1; other := 0;
     total_alarms := 4; alarming := 0; ok_alarms := 4 |}.

Definition tallies_b : tallies :=
  {| total_instances := 3; running := 2; stopped := 1; other := 0;
     total_alarms := 4; alarming := 0; ok_alarms := 1 |}.

(** ** Auxiliary notions of the proofs *)

(** Keys the encoder leaves as they are: printable ASCII without the quote
    and the backslash. *)
Definition plain_char (c : ascii) : bool :=
  let n := N_of_ascii c in
  ((32 <=? n) && (n <=? 126) && negb (n =? 34) && negb (n =? 92))%N.

Fixpoint plain (s : string) : bool :=
  match s with
  | "" => true
  | String c s' => plain_char c && plain s'
  end.

Ltac table_cases :=
  repeat case_decide; subst; simpl; try done.

(** ** Observations on a run *)

(** The files a computation wrote, in order, with their contents. *)
Definition writes {A} (m : IO A) : list (string * string) :=
  omap (λ e, match e with WriteFile f c => Some (f, c) | Print _ => None end) (trace m).

(** The fetch raised one of the two exceptions the checks catch. *)
Definition failed {R} (call : fetched R) : bool :=
  match call with
  | Response _ | OtherException _ => false
  | NoCredentialsError | ClientError _ => true
  end.

(** The two lines [check_ec2_instances] prints for a record (lines 75-76)
    and the two lines [check_cloudwatch_alarms] prints (lines 126-127). *)
Definition instance_lines (info : instance_info) : list string :=
  [ ec2_status (i_state info) +:+ " " +:+ i_name info +:+ " (" +:+ instance_id info +:+ ")";
    "   Type: " +:+ instance_type info +:+ ", State: " +:+ i_state info ].


(** The records of the alarms that come before the first alarm without a
    [MetricName]: those the loop of [check_cloudwatch_alarms] gets to. *)
Fixpoint alarm_prefix (metric_alarms : list MetricAlarm) : list alarm_info :=
  match metric_alarms with
  | [] => []
  | alarm :: rest =>
      match make_alarm_info alarm with
      | Returned info => info :: alarm_prefix rest
      | Raised _ => []
      end
  end.

(** The tree the reader returns for the text of [o]: the tree itself, its
    strings written and decoded again. *)
Fixpoint reread (o : Json.t) : Json.t :=
  match o with
  | Json.Int n => Json.Int n
  | Json.Str s => Json.Str (Reader.unescape (Json.escape s))
  | Json.List items => Json.List (List.map reread items)
  | Json.Dict items =>
      Json.Dict (List.map (λ kv, let '(k, v) := kv in
                   (Reader.unescape (Json.escape k), reread v)) items)
  end.

(** The state of the reader after the text of [o]: an integer is complete
    only at the next character. *)
Definition pending (o : Json.t) (stack : list Reader.frame) : Reader.state :=
  match o with
  | Json.Int n => Reader.St (Reader.InNum (Py.str_of_int n)) stack
  | _ => Reader.finish (reread o) stack
  end.

(** The reader stays where it is on white space. *)
Definition skips_ws (st : Reader.state) : Prop :=
  ∀ c, Reader.is_ws c = true → Reader.step st c = st.

(** A text is scanned when the reader, inside a string literal, takes it
    into the body of the literal and stays inside. *)
Definition scanned (s : string) : Prop :=
  ∀ key raw stack rest,
    Reader.run (Reader.St (Reader.InStr key raw) stack) (s +:+ rest)
    = Reader.run (Reader.St (Reader.InStr key (raw +:+ s)) stack) rest.

(** What reading the text of a value comes to. *)
Definition reads (o : Json.t) : Prop :=
  ∀ level stack,
    Reader.run (Reader.St Reader.Value stack) (Json.dumps level o) = pending o stack.

(** The last step of [main]: the optional report, then the closing line. *)
Definition report_step (w : world) (a : args)
    (instances : list instance_info) (alarms : list alarm_info) : IO (outcome unit) :=
  _ <~ match output a with
       | Some filename =>
           if decide (filename = "") then mret (Returned tt)
           else save_report (open_error w filename) (generated_at w) filename (region a)
                  instances alarms (value (generate_summary instances alarms))
       | None => mret (Returned tt)
       end;
  print (Py.nl +:+ "✅ Health check complete!" +:+ Py.nl);;
  mret (Returned tt).

(** Every character of [s] satisfies [p]. *)
Fixpoint all_chars (p : ascii → bool) (s : string) : bool :=
  match s with
  | "" => true
  | String c s' => p c && all_chars p s'
  end.

(** Printable ASCII, and printable ASCII or a line feed. *)
Definition printable (c : ascii) : bool :=
  let n := N_of_ascii c in ((32 <=? n) && (n <=? 126))%N.

Definition printable_or_nl (c : ascii) : bool :=
  printable c || (N_of_ascii c =? 10)%N.

(** * Properties *)

(** ** Counting *)

Section Counting.
Context {A : Type}.
Implicit Types (l : list A) (P Q : A → Prop).

Lemma foldl_add_ones l (a : Z) :
  foldl Z.add a ((λ _, 1) <$> l) = a + Z.of_nat (length l).
Proof.
  revert a. induction l as [|x l IH]; intros a; simpl.
  - lia.
  - rewrite IH. lia.
Qed.

Lemma sum_ones_if P `{∀ x, Decision (P x)} l :
  Py.sum (Py.ones_if P l) = Z.of_nat (length (filter P l)).
Proof.
  unfold Py.sum, Py.ones_if. rewrite foldl_add_ones. lia.
Qed.

(** Two exclusive classes and the rest partition a list. *)
Lemma length_filter_three P Q `{∀ x, Decision (P x)} `{∀ x, Decision (Q x)} l :
  (∀ x, P x → Q x → False) →
  (length (filter P l) + length (filter Q l)
     + length (filter (λ x, ¬ P x ∧ ¬ Q x) l) = length l)%nat.
Proof.
  intros Hex. induction l as [|x l IH]; [done|].
  rewrite !filter_cons.
  destruct (decide (P x)) as [HP|HP], (decide (Q x)) as [HQ|HQ].
  - destruct (Hex x HP HQ).
  - rewrite decide_False by tauto. simpl. lia.
  - rewrite decide_False by tauto. simpl. lia.
  - rewrite decide_True by tauto. simpl. lia.
Qed.

Lemma sum_ones_if_perm P `{∀ x, Decision (P x)} l l' :
  l ≡ₚ l' → Py.sum (Py.ones_if P l) = Py.sum (Py.ones_if P l').
Proof. intros Hp. rewrite !sum_ones_if. by rewrite Hp. Qed.
End Counting.

Lemma state_exclusive (s : string) : s = "running" → s = "stopped" → False.
Proof. intros -> [=]. Qed.

Lemma alarm_state_exclusive (s : string) : s = "OK" → s = "ALARM" → False.
Proof. intros -> [=]. Qed.

Lemma tally_perm instances instances' alarms alarms' :
  instances ≡ₚ instances' → alarms ≡ₚ alarms' →
  tally instances alarms = tally instances' alarms'.
Proof.
  intros Hi Ha. unfold tally, Py.len.
  rewrite (sum_ones_if_perm _ _ _ Hi), (sum_ones_if_perm _ _ _ Hi).
  rewrite (sum_ones_if_perm _ _ _ Ha), (sum_ones_if_perm _ _ _ Ha).
  by rewrite Hi, Ha.
Qed.

(** C3: the instance tallies add up to the number of records, with
    [running] and [stopped] the numbers of records in these two states and
    [total_instances] the length of the list. *)
Theorem instance_tallies_add_up instances alarms :
  let t := tally instances alarms in
  total_instances t = Z.of_nat (length instances)
  ∧ running t = Z.of_nat (length (filter (λ i, i_state i = "running") instances))
  ∧ stopped t = Z.of_nat (length (filter (λ i, i_state i = "stopped") instances))
  ∧ running t + stopped t + other t = total_instances t.
Proof.
  simpl. rewrite !sum_ones_if. unfold Py.len. repeat split. lia.
Qed.

(** C4: the alarm tallies add up: the records in state OK, those in state
    ALARM and those in any other state are all the alarm records. *)
Theorem alarm_tallies_add_up instances alarms :
  let t := tally instances alarms in
  total_alarms t = Z.of_nat (length alarms)
  ∧ ok_alarms t = Z.of_nat (length (filter (λ a, a_state a = "OK") alarms))
  ∧ alarming t = Z.of_nat (length (filter (λ a, a_state a = "ALARM") alarms))
  ∧ ok_alarms t + alarming t
      + Z.of_nat (length (filter (λ a, ¬ a_state a = "OK" ∧ ¬ a_state a = "ALARM") alarms))
    = total_alarms t.
Proof.
  simpl. rewrite !sum_ones_if. unfold Py.len. repeat split.
  pose proof (length_filter_three (λ a, a_state a = "OK") (λ a, a_state a = "ALARM")
                alarms (λ a, alarm_state_exclusive (a_state a))).
  lia.
Qed.

(** The [other] bucket holds exactly the records that are neither running
    nor stopped. *)
Lemma other_counts_the_rest instances alarms :
  other (tally instances alarms)
  = Z.of_nat (length (filter (λ i, ¬ i_state i = "running" ∧ ¬ i_state i = "stopped")
                        instances)).
Proof.
  simpl. rewrite !sum_ones_if. unfold Py.len.
  pose proof (length_filter_three (λ i, i_state i = "running") (λ i, i_state i = "stopped")
                instances (λ i, state_exclusive (i_state i))).
  lia.
Qed.

(** C9: [other = total - running - stopped] is never negative, since no
    record is both running and stopped and so [running + stopped] is at
    most the length of the list. *)
Theorem other_instances_nonnegative instances alarms :
  let t := tally instances alarms in
  other t = total_instances t - running t - stopped t
  ∧ (running t + stopped t ≤ Py.len instances)%Z
  ∧ (0 ≤ other t)%Z.
Proof.
  pose proof (other_counts_the_rest instances alarms) as Ho.
  simpl in *. split; [done|]. lia.
Qed.

(** ** What a computation printed *)

Lemma printed_bind {A B} (m : IO A) (k : A → IO B) :
  printed (m ≫= k) = printed m ++ printed (k (value m)).
Proof. unfold printed. simpl. by rewrite omap_app. Qed.

Lemma printed_print text : printed (print text) = [text].
Proof. done. Qed.

Lemma printed_ret {A} (a : A) : printed (mret a) = [].
Proof. done. Qed.

Lemma value_bind {A B} (m : IO A) (k : A → IO B) :
  value (m ≫= k) = value (k (value m)).
Proof. done. Qed.

(** ** The overall status *)

Lemma status_message_inj s s' : status_message s = status_message s' → s = s'.
Proof. by destruct s, s'; intros [=]. Qed.

Lemma assessment_priority instances alarms :
  assessment (tally instances alarms) = status_message (Spec.priority instances alarms).
Proof.
  unfold assessment, Spec.priority. simpl.
  rewrite !sum_ones_if.
  unfold Spec.alarming_count, Spec.running_instances.
  repeat case_decide; repeat (case_match; try done);
    repeat match goal with
    | H : (_ && _)%bool = true |- _ => apply andb_true_iff in H as [? ?]
    | H : (_ && _)%bool = false |- _ => apply andb_false_iff in H as [?|?]
    end; lia.
Qed.

Lemma generate_summary_value instances alarms :
  value (generate_summary instances alarms) = summary_dict (tally instances alarms).
Proof. unfold generate_summary. by case_decide. Qed.

Lemma generate_summary_printed_end instances alarms :
  ∃ before,
    printed (generate_summary instances alarms)
    = before ++ [Py.nl +:+ rule; assessment (tally instances alarms); rule].
Proof.
  unfold generate_summary.
  repeat (rewrite printed_bind, printed_print).
  rewrite printed_bind.
  repeat (rewrite printed_bind, printed_print).
  rewrite printed_ret.
  eexists (_ :: _ :: _ :: _ :: _ :: _ :: _ :: (_ ++ [_; _; _; _])).
  simpl. by rewrite <- app_assoc.
Qed.

(** C1: the status printed by [generate_summary] is the one the priority
    list of the specification selects, whatever the two lists are; the
    four messages are pairwise different, so the printed line determines
    the status; and ATTENTION is printed as soon as one alarm is in state
    ALARM. *)
Theorem overall_status_priority instances alarms :
  assessment (tally instances alarms) = status_message (Spec.priority instances alarms)
  ∧ (∃ before,
       printed (generate_summary instances alarms)
       = before ++ [Py.nl +:+ rule; status_message (Spec.priority instances alarms); rule])
  ∧ (∀ s s', status_message s = status_message s' → s = s')
  ∧ alarming (tally instances alarms) = Spec.alarming_count alarms
  ∧ ((Spec.alarming_count alarms > 0)%Z →
       ∀ instances', Spec.priority instances' alarms = Spec.ATTENTION).
Proof.
  split_and!.
  - apply assessment_priority.
  - rewrite <- assessment_priority. apply generate_summary_printed_end.
  - apply status_message_inj.
  - simpl. by rewrite sum_ones_if.
  - intros Hpos instances'. unfold Spec.priority.
    case_match; [done|lia].
Qed.

(** ** The returned summary *)

(** The summary of an empty account. *)
Lemma generate_summary_empty :
  value (generate_summary [] [])
  = [ ("total_instances", 0); ("running_instances", 0); ("stopped_instances", 0);
      ("total_alarms", 0); ("active_alarms", 0) ]
  ∧ assessment (tally [] []) = msg_no_resources.
Proof. done. Qed.

(** C2, as stated, fails: the dictionary returned for two empty lists lacks
    four of the eight fields ([other_instances], [ok_alarms],
    [alarming_count], [overall_status]) and has a field [active_alarms]
    the specification does not list. *)
Lemma summary_fields_differ :
  ¬ (∀ k, k ∈ Spec.summary_fields ↔ k ∈ (value (generate_summary [] [])).*1).
Proof.
  intros H. specialize (H "overall_status").
  destruct H as [H _].
  assert (Hin : "overall_status" ∈ Spec.summary_fields) by (unfold Spec.summary_fields; repeat constructor).
  apply H in Hin. vm_compute in Hin.
  repeat (apply elem_of_cons in Hin as [Hin|Hin]; [discriminate Hin|]).
  by apply elem_of_nil in Hin.
Qed.

(** C2, amended: the returned summary has exactly the five fields
    [total_instances], [running_instances], [stopped_instances],
    [total_alarms] and [active_alarms], in this order, and each value is a
    count over the two lists: their lengths, the numbers of instances in
    state running and stopped, and the number of alarms in state ALARM. *)
Theorem summary_fields_returned instances alarms :
  (value (generate_summary instances alarms)).*1
  = [ "total_instances"; "running_instances"; "stopped_instances";
      "total_alarms"; "active_alarms" ]
  ∧ value (generate_summary instances alarms)
    = [ ("total_instances", Py.len instances);
        ("running_instances", Spec.running_instances instances);
        ("stopped_instances", Spec.stopped_instances instances);
        ("total_alarms", Py.len alarms);
        ("active_alarms", Spec.alarming_count alarms) ].
Proof.
  rewrite generate_summary_value. split; [done|].
  unfold summary_dict. simpl. by rewrite !sum_ones_if.
Qed.

(** ** Order of the records *)

Lemma count_fmap {A} (f : A → string) (s : string) (l : list A) :
  length (filter (λ x, f x = s) l) = length (filter (λ y, y = s) (f <$> l)).
Proof.
  induction l as [|x l IH]; [done|].
  rewrite fmap_cons, !filter_cons. case_decide; simpl; by rewrite IH.
Qed.

(** The tallies depend on the states of the records only, and only on how
    often each state occurs. *)
Lemma tally_states instances instances' alarms alarms' :
  i_state <$> instances ≡ₚ i_state <$> instances' →
  a_state <$> alarms ≡ₚ a_state <$> alarms' →
  tally instances alarms = tally instances' alarms'.
Proof.
  intros Hi Ha. unfold tally, Py.len. rewrite !sum_ones_if.
  rewrite <- (length_fmap i_state instances), <- (length_fmap i_state instances').
  rewrite <- (length_fmap a_state alarms), <- (length_fmap a_state alarms').
  rewrite (count_fmap i_state "running" instances).
  rewrite (count_fmap i_state "running" instances').
  rewrite (count_fmap i_state "stopped" instances).
  rewrite (count_fmap i_state "stopped" instances').
  rewrite (count_fmap a_state "ALARM" alarms).
  rewrite (count_fmap a_state "ALARM" alarms').
  rewrite (count_fmap a_state "OK" alarms).
  rewrite (count_fmap a_state "OK" alarms').
  by rewrite Hi, Ha.
Qed.

(** C10: what [generate_summary] returns and prints, the overall
    assessment included, depends only on the multiset of the states of the
    records: two pairs of lists whose states are the same up to order give
    the same result, whatever the other fields are.  Permuting either list
    is the case of the same records in another order. *)
Theorem summary_permutation instances instances' alarms alarms' :
  i_state <$> instances ≡ₚ i_state <$> instances' →
  a_state <$> alarms ≡ₚ a_state <$> alarms' →
  generate_summary instances alarms = generate_summary instances' alarms'
  ∧ tally instances alarms = tally instances' alarms'
  ∧ Spec.priority instances alarms = Spec.priority instances' alarms'.
Proof.
  intros Hi Ha.
  pose proof (tally_states _ _ _ _ Hi Ha) as Ht.
  split_and!; [|done|].
  - unfold generate_summary. by rewrite Ht.
  - apply status_message_inj. by rewrite <- !assessment_priority, Ht.
Qed.

(** Other records, in another order, with the same states. *)
Lemma summary_permutation_witness :
  generate_summary [record_of "i-01" "web" "running"; record_of "i-02" "db" "stopped"]
                   [alarm_of "cpu-high" "OK"; alarm_of "disk-full" "ALARM"]
  = generate_summary [record_of "i-77" "cache" "stopped"; record_of "i-99" "Unnamed" "running"]
                     [alarm_of "latency" "ALARM"; alarm_of "errors" "OK"]
  ∧ tally [record_of "i-01" "web" "running"; record_of "i-02" "db" "stopped"]
          [alarm_of "cpu-high" "OK"; alarm_of "disk-full" "ALARM"]
    = tally [record_of "i-77" "cache" "stopped"; record_of "i-99" "Unnamed" "running"]
            [alarm_of "latency" "ALARM"; alarm_of "errors" "OK"]
  ∧ Spec.priority [record_of "i-01" "web" "running"; record_of "i-02" "db" "stopped"]
                  [alarm_of "cpu-high" "OK"; alarm_of "disk-full" "ALARM"]
    = Spec.priority [record_of "i-77" "cache" "stopped"; record_of "i-99" "Unnamed" "running"]
                    [alarm_of "latency" "ALARM"; alarm_of "errors" "OK"].
Proof.
  apply summary_permutation; simpl; apply perm_swap.
Defined.

(** The same records in another order. *)
Lemma summary_of_permuted_records instances instances' alarms alarms' :
  instances ≡ₚ instances' → alarms ≡ₚ alarms' →
  generate_summary instances alarms = generate_summary instances' alarms'.
Proof.
  intros Hi Ha. unfold generate_summary.
  by rewrite (tally_perm _ _ _ _ Hi Ha).
Qed.

(** ** The normalizer *)

Lemma name_tag_loop_none tags name :
  (∀ tag, tag ∈ tags → Key tag ≠ "Name") → name_tag_loop tags name = name.
Proof.
  induction tags as [|tag tags IH]; intros Hno; simpl; [done|].
  rewrite decide_False by (apply Hno; left).
  apply IH. intros t Ht. apply Hno. by right.
Qed.

Lemma name_tag_loop_first before tag after name :
  (∀ t, t ∈ before → Key t ≠ "Name") → Key tag = "Name" →
  name_tag_loop (before ++ tag :: after) name = Value tag.
Proof.
  intros Hno Hkey. induction before as [|t before IH]; simpl.
  - by rewrite decide_True.
  - rewrite decide_False by (apply Hno; left).
    apply IH. intros t' Ht'. apply Hno. by right.
Qed.

Lemma ec2_loop_value l acc :
  value (for_each l ec2_instance_body acc) = acc ++ (make_instance_info <$> l).
Proof.
  revert acc. induction l as [|x l IH]; intros acc; cbn [for_each].
  - simpl. by rewrite app_nil_r.
  - rewrite value_bind, IH. unfold ec2_instance_body. simpl.
    by rewrite <- app_assoc.
Qed.

Lemma ec2_reservations_value rs acc :
  value (for_each rs (λ r a, for_each (Instances r) ec2_instance_body a) acc)
  = acc ++ (make_instance_info <$> concat (Instances <$> rs)).
Proof.
  revert acc. induction rs as [|r rs IH]; intros acc; cbn [for_each].
  - simpl. by rewrite app_nil_r.
  - rewrite value_bind, IH, ec2_loop_value. simpl.
    by rewrite fmap_app, <- app_assoc.
Qed.

Lemma check_ec2_instances_value rs :
  value (check_ec2_instances (Response rs))
  = Returned (make_instance_info <$> concat (Instances <$> rs)).
Proof.
  unfold check_ec2_instances. rewrite !value_bind.
  by rewrite ec2_reservations_value.
Qed.

(** C7: the record made from a provider instance carries the provider's
    state string unchanged; its name is "Unnamed" when no tag has the key
    [Name] and the value of the first such tag otherwise; every instance
    of the response gets its record, in order; and the records whose state
    is neither running nor stopped (so every state without an indicator of
    its own, too) are the ones counted as [other]. *)
Theorem normalizer_contract instance :
  i_state (make_instance_info instance) = State_Name instance
  ∧ instance_id (make_instance_info instance) = InstanceId instance
  ∧ instance_type (make_instance_info instance) = InstanceType instance
  ∧ ((∀ tag, tag ∈ default [] (Tags instance) → Key tag ≠ "Name") →
       i_name (make_instance_info instance) = "Unnamed")
  ∧ (∀ before tag after,
       default [] (Tags instance) = before ++ tag :: after →
       (∀ t, t ∈ before → Key t ≠ "Name") → Key tag = "Name" →
       i_name (make_instance_info instance) = Value tag)
  ∧ (∀ reservations,
       value (check_ec2_instances (Response reservations))
       = Returned (make_instance_info <$> concat (Instances <$> reservations)))
  ∧ (∀ instances alarms,
       other (tally instances alarms)
       = Z.of_nat (length (filter (λ i, ¬ i_state i = "running" ∧ ¬ i_state i = "stopped")
                             instances))).
Proof.
  split_and!; try done.
  - intros Hno. simpl. by apply name_tag_loop_none.
  - intros before tag after Htags Hno Hkey. simpl. rewrite Htags.
    by apply name_tag_loop_first.
  - apply check_ec2_instances_value.
  - apply other_counts_the_rest.
Qed.

Example normalizer_sample :
  ∃ instances,
    value (check_ec2_instances (Response sample_reservations)) = Returned instances
    ∧ i_name <$> instances = ["Unnamed"; "Unnamed"; "db"]
    ∧ i_state <$> instances = ["running"; "stopped"; "shutting-down"]
    ∧ other (tally instances []) = 1.
Proof. eexists. split; [reflexivity|done]. Qed.

(** ** The indicator tables *)

Lemma ec2_status_icons_lookup state :
  ec2_status_icons !! state =
    if decide ("terminated" = state) then Some "💀"
    else if decide ("stopping" = state) then Some "⏳"
    else if decide ("pending" = state) then Some "⏳"
    else if decide ("stopped" = state) then Some "🛑"
    else if decide ("running" = state) then Some "✅"
    else None.
Proof.
  unfold ec2_status_icons, Py.dict_display. cbn [foldl fst snd].
  rewrite !lookup_insert. by repeat case_decide.
Qed.

Lemma alarm_status_icons_lookup state :
  alarm_status_icons !! state =
    if decide ("INSUFFICIENT_DATA" = state) then Some "⚠️"
    else if decide ("ALARM" = state) then Some "🚨"
    else if decide ("OK" = state) then Some "✅"
    else None.
Proof.
  unfold alarm_status_icons, Py.dict_display. cbn [foldl fst snd].
  rewrite !lookup_insert. by repeat case_decide.
Qed.

(** C8: both indicator look-ups are total.  A state of the table gets the
    indicator the table gives it; any other state gets the default, which
    is not empty and differs from every indicator of the same table. *)
Theorem status_indicator_total state :
  ec2_status <$> ["running"; "stopped"; "pending"; "stopping"; "terminated"]
    = ["✅"; "🛑"; "⏳"; "⏳"; "💀"]
  ∧ (state ∉ ["running"; "stopped"; "pending"; "stopping"; "terminated"] →
       ec2_status state = "⚠️")
  ∧ ec2_status state ≠ ""
  ∧ (∀ mapped, mapped ∈ ["running"; "stopped"; "pending"; "stopping"; "terminated"] →
       ec2_status mapped ≠ "⚠️")
  ∧ alarm_status <$> ["OK"; "ALARM"; "INSUFFICIENT_DATA"] = ["✅"; "🚨"; "⚠️"]
  ∧ (state ∉ ["OK"; "ALARM"; "INSUFFICIENT_DATA"] → alarm_status state = "❓")
  ∧ alarm_status state ≠ ""
  ∧ (∀ mapped, mapped ∈ ["OK"; "ALARM"; "INSUFFICIENT_DATA"] →
       alarm_status mapped ≠ "❓").
Proof.
  split_and!.
  - done.
  - intros Hno. unfold ec2_status, Py.get. rewrite ec2_status_icons_lookup.
    table_cases; destruct Hno; repeat constructor.
  - unfold ec2_status, Py.get. rewrite ec2_status_icons_lookup. table_cases.
  - intros mapped Hin. unfold ec2_status, Py.get. rewrite ec2_status_icons_lookup.
    table_cases. exfalso.
    repeat (apply elem_of_cons in Hin as [Hin|Hin]; [by subst|]).
    by apply elem_of_nil in Hin.
  - done.
  - intros Hno. unfold alarm_status, Py.get. rewrite alarm_status_icons_lookup.
    table_cases; destruct Hno; repeat constructor.
  - unfold alarm_status, Py.get. rewrite alarm_status_icons_lookup. table_cases.
  - intros mapped Hin. unfold alarm_status, Py.get. rewrite alarm_status_icons_lookup.
    table_cases. exfalso.
    repeat (apply elem_of_cons in Hin as [Hin|Hin]; [by subst|]).
    by apply elem_of_nil in Hin.
Qed.

(** ** Missing credentials *)

(** C6: with missing credentials both checks return the empty list, but
    only the instance check prints the remediation hint: the alarm check
    prints the error line alone. *)
Theorem alarm_check_omits_hint :
  printed (check_ec2_instances NoCredentialsError)
    = [ Py.nl +:+ rule; "EC2 INSTANCE STATUS"; rule;
        "❌ Error: AWS credentials not configured"; remediation_hint ]
  ∧ value (check_ec2_instances NoCredentialsError) = Returned []
  ∧ printed (check_cloudwatch_alarms NoCredentialsError)
    = [ Py.nl +:+ rule; "CLOUDWATCH ALARM STATUS"; rule;
        "❌ Error: AWS credentials not configured" ]
  ∧ value (check_cloudwatch_alarms NoCredentialsError) = Returned []
  ∧ remediation_hint ∉ printed (check_cloudwatch_alarms NoCredentialsError).
Proof.
  split_and!; try done.
  intros Hin. vm_compute in Hin.
  repeat (apply elem_of_cons in Hin as [Hin|Hin]; [discriminate Hin|]).
  by apply elem_of_nil in Hin.
Qed.

(** A failed fetch does not stop the run: the summary of the two empty
    lists is printed and the run reaches its last line. *)
Lemma main_after_failed_fetches w a message :
  describe_instances w (region a) = NoCredentialsError →
  describe_alarms w (region a) = ClientError message →
  output a = None →
  ∃ before,
    printed (main w a)
    = before ++ [ Py.nl +:+ rule; msg_no_resources; rule;
                  Py.nl +:+ "✅ Health check complete!" +:+ Py.nl ].
Proof.
  intros Hi Ha Ho. unfold main. rewrite Hi, Ha, Ho.
  eexists (_ :: _ :: _ :: _ :: _ :: _ :: _ :: _ :: _ :: _ ::
           _ :: _ :: _ :: _ :: _ :: _ :: _ :: _ :: _ :: _ ::
           _ :: _ :: _ :: _ :: _ :: []).
  reflexivity.
Qed.

(** ** Writing a summary and reading it back *)

(** stdpp keeps [+:+] folded under [simpl]; these are its two equations. *)
Lemma append_empty (s : string) : "" +:+ s = s.
Proof. reflexivity. Qed.

Lemma append_String c (s1 s2 : string) : String c s1 +:+ s2 = String c (s1 +:+ s2).
Proof. reflexivity. Qed.

Lemma append_assoc (s1 s2 s3 : string) : (s1 +:+ s2) +:+ s3 = s1 +:+ (s2 +:+ s3).
Proof.
  induction s1 as [|c s1 IH]; [done|].
  by rewrite !append_String, IH.
Qed.

Lemma append_nil_r (s : string) : s +:+ "" = s.
Proof.
  induction s as [|c s IH]; [done|].
  by rewrite append_String, IH.
Qed.

Lemma plain_char_spec c :
  plain_char c = true →
  (32 ≤ N_of_ascii c ≤ 126 ∧ N_of_ascii c ≠ 34 ∧ N_of_ascii c ≠ 92)%N.
Proof.
  unfold plain_char. cbv zeta.
  rewrite !andb_true_iff, !negb_true_iff, !N.leb_le, !N.eqb_neq. tauto.
Qed.

Lemma escape_char_plain c :
  plain_char c = true → Json.escape_char (N_of_ascii c) = String c "".
Proof.
  intros (Hr & H34 & H92)%plain_char_spec. unfold Json.escape_char.
  repeat match goal with
  | |- context [(?n =? ?m)%N] => destruct (N.eqb_spec n m); [lia|]
  end.
  replace ((32 <=? N_of_ascii c) && (N_of_ascii c <=? 126))%N with true.
  - by rewrite ascii_N_embedding.
  - symmetry. apply andb_true_iff. split; apply N.leb_le; lia.
Qed.

Lemma escape_plain s : plain s = true → Json.escape s = s.
Proof.
  induction s as [|c s IH]; [done|].
  intros [Hc Hs]%andb_true_iff. cbn [Json.escape]. cbv zeta.
  pose proof (plain_char_spec c Hc) as (Hr & _ & _).
  replace (N_of_ascii c <? 128)%N with true by (symmetry; apply N.ltb_lt; lia).
  by rewrite escape_char_plain, IH by done.
Qed.

Lemma all_chars_app p s1 s2 :
  all_chars p (s1 +:+ s2) = all_chars p s1 && all_chars p s2.
Proof.
  induction s1 as [|c s1 IH]; [done|].
  rewrite append_String. simpl. by rewrite IH, andb_assoc.
Qed.

(** Induction on a JSON value and on the values below it. *)
Lemma json_ind (P : Json.t → Prop) :
  (∀ n, P (Json.Int n)) →
  (∀ s, P (Json.Str s)) →
  (∀ items, Forall P items → P (Json.List items)) →
  (∀ items, Forall (λ kv, P kv.2) items → P (Json.Dict items)) →
  ∀ o, P o.
Proof.
  intros HInt HStr HList HDict. fix IH 1. intros [n|s|items|items].
  - apply HInt.
  - apply HStr.
  - apply HList. induction items as [|o items IHitems]; constructor; [apply IH | done].
  - apply HDict. induction items as [|[k o] items IHitems]; constructor; [apply IH | done].
Qed.

Module ReaderFacts.
Import Reader.

Lemma run_app st s1 s2 : run st (s1 +:+ s2) = run (run st s1) s2.
Proof.
  revert st. induction s1 as [|c s1 IH]; intros st; [done|].
  rewrite append_String. simpl. apply IH.
Qed.

Lemma run_String st c s : run st (String c s) = run (step st c) s.
Proof. done. Qed.

(** White space between the tokens is skipped. *)
Lemma run_ws st s : skips_ws st → all_chars is_ws s = true → run st s = st.
Proof.
  intros Hst. induction s as [|c s IH]; [done|]. simpl.
  intros [Hc Hs]%andb_true_iff. rewrite Hst by done. by apply IH.
Qed.

Lemma skips_ws_value stack : skips_ws (St Value stack).
Proof. intros c Hc. simpl. by rewrite Hc. Qed.

Lemma skips_ws_key stack : skips_ws (St KeyStart stack).
Proof. intros c Hc. simpl. by rewrite Hc. Qed.

Lemma skips_ws_after stack : skips_ws (St AfterItem stack).
Proof. intros c Hc. simpl. unfold step_after. by rewrite Hc. Qed.

Lemma indent_is_ws n : all_chars is_ws (Py.str_mul "  " n) = true.
Proof.
  induction n as [|n IH]; [done|]. cbn [Py.str_mul].
  by rewrite all_chars_app, IH.
Qed.

Lemma newline_indent_is_ws n : all_chars is_ws (Json.newline_indent n) = true.
Proof. unfold Json.newline_indent. by rewrite all_chars_app, indent_is_ws. Qed.

(** String literals. *)
Lemma scanned_empty : scanned "".
Proof. intros key raw stack rest. by rewrite append_empty, append_nil_r. Qed.

Lemma scanned_app s1 s2 : scanned s1 → scanned s2 → scanned (s1 +:+ s2).
Proof.
  intros H1 H2 key raw stack rest.
  by rewrite append_assoc, H1, H2, append_assoc.
Qed.

Lemma scanned_char c :
  is_char 34 c = false → is_char 92 c = false → scanned (String c "").
Proof.
  intros H34 H92 key raw stack rest.
  rewrite append_String, append_empty, run_String. simpl. by rewrite H34, H92.
Qed.

Lemma scanned_escape c : scanned (String (ascii_of_nat 92) (String c "")).
Proof.
  intros key raw stack rest.
  rewrite !append_String, append_empty, !run_String. simpl.
  by rewrite append_assoc.
Qed.

Lemma is_char_ascii_of_N m n :
  (n < 256)%N → is_char m (ascii_of_N n) = (n =? m)%N.
Proof. intros Hn. unfold is_char. by rewrite N_ascii_embedding. Qed.

Lemma scanned_hex_digit n : (n < 16)%N → scanned (String (Json.hex_digit n) "").
Proof.
  intros Hn. unfold Json.hex_digit.
  destruct (N.ltb_spec n 10); apply scanned_char;
    rewrite is_char_ascii_of_N by lia; apply N.eqb_neq; lia.
Qed.

Lemma scanned_u_escape n : scanned (Json.u_escape n).
Proof.
  unfold Json.u_escape.
  change "\u" with (String (ascii_of_nat 92) (String "u" "")).
  apply scanned_app; [apply scanned_escape|].
  assert (Hcons : ∀ c s, String c s = String c "" +:+ s) by done.
  rewrite (Hcons _ (String _ _)). apply scanned_app; [apply scanned_hex_digit; by apply N.mod_lt|].
  rewrite (Hcons _ (String _ _)). apply scanned_app; [apply scanned_hex_digit; by apply N.mod_lt|].
  rewrite (Hcons _ (String _ _)). apply scanned_app; [apply scanned_hex_digit; by apply N.mod_lt|].
  apply scanned_hex_digit; by apply N.mod_lt.
Qed.

Lemma scanned_escape_char n : scanned (Json.escape_char n).
Proof.
  unfold Json.escape_char.
  repeat (case_match; [apply scanned_escape|]).
  case_match.
  - match goal with H : (_ && _)%bool = true |- _ =>
      apply andb_true_iff in H as [?%N.leb_le ?%N.leb_le] end.
    repeat match goal with H : (_ =? _)%N = false |- _ => apply N.eqb_neq in H end.
    apply scanned_char; rewrite is_char_ascii_of_N by lia; apply N.eqb_neq; lia.
  - case_match; [apply scanned_u_escape|].
    apply scanned_app; apply scanned_u_escape.
Qed.

Lemma scanned_escape_upto k s : (String.length s ≤ k)%nat → scanned (Json.escape s).
Proof.
  revert s. induction k as [|k IH]; intros s Hk.
  - destruct s; [apply scanned_empty|]. simpl in Hk. lia.
  - destruct s as [|b0 s1]; [apply scanned_empty|]. cbn [Json.escape]. cbv zeta.
    simpl in Hk.
    case_match.
    { apply scanned_app; [apply scanned_escape_char|]. apply IH. lia. }
    destruct s1 as [|b1 s2]; [apply scanned_empty|]. simpl in Hk.
    case_match.
    { apply scanned_app; [apply scanned_escape_char|]. apply IH. lia. }
    destruct s2 as [|b2 s3]; [apply scanned_empty|]. simpl in Hk.
    case_match.
    { apply scanned_app; [apply scanned_escape_char|]. apply IH. lia. }
    destruct s3 as [|b3 s4]; [apply scanned_empty|]. simpl in Hk.
    apply scanned_app; [apply scanned_escape_char|]. apply IH. lia.
Qed.

Lemma scanned_escaped s : scanned (Json.escape s).
Proof. by apply (scanned_escape_upto (String.length s)). Qed.

(** A string value, and a key with its colon. *)
Lemma run_string stack s :
  run (St Value stack) (Json.encode_basestring_ascii s)
  = finish (Json.Str (unescape (Json.escape s))) stack.
Proof.
  unfold Json.encode_basestring_ascii, Json.quote.
  rewrite append_String, append_empty, run_String.
  change (step (St Value stack) (ascii_of_nat 34)) with (St (InStr false "") stack).
  rewrite scanned_escaped, append_empty. done.
Qed.

Lemma run_key done stack k :
  run (St KeyStart (FDict done :: stack)) (Json.encode_basestring_ascii k +:+ ": ")
  = St Value (FMember done (unescape (Json.escape k)) :: stack).
Proof.
  unfold Json.encode_basestring_ascii, Json.quote.
  rewrite !append_String, append_empty, run_String.
  change (step (St KeyStart (FDict done :: stack)) (ascii_of_nat 34))
    with (St (InStr true "") (FDict done :: stack)).
  rewrite append_assoc, scanned_escaped, append_empty. done.
Qed.

(** A number. *)
Lemma run_digits stack lit d :
  run (St (InNum lit) stack) (NilEmpty.string_of_uint d)
  = St (InNum (lit +:+ NilEmpty.string_of_uint d)) stack.
Proof.
  revert lit. induction d; intros lit; simpl;
    rewrite ?append_nil_r; try done;
    by rewrite IHd, append_assoc, append_String, append_empty.
Qed.

Lemma run_uint stack d :
  d ≠ Decimal.Nil →
  run (St Value stack) (NilEmpty.string_of_uint d)
  = St (InNum (NilEmpty.string_of_uint d)) stack.
Proof.
  destruct d; intros Hd; try done; simpl; unfold start_value; simpl;
    by rewrite run_digits.
Qed.

Lemma nilzero_uint d : d ≠ Decimal.Nil → NilZero.string_of_uint d = NilEmpty.string_of_uint d.
Proof. by destruct d. Qed.

Lemma run_int stack n :
  run (St Value stack) (Py.str_of_int n) = St (InNum (Py.str_of_int n)) stack.
Proof.
  unfold Py.str_of_int. destruct n as [|p|p]; simpl.
  - done.
  - pose proof (Unsigned.to_uint_nonnil p).
    rewrite nilzero_uint by done. by apply run_uint.
  - pose proof (Unsigned.to_uint_nonnil p).
    rewrite nilzero_uint by done. unfold start_value. simpl. by rewrite run_digits.
Qed.

Lemma number_str_of_int n : number (Py.str_of_int n) = Some n.
Proof.
  unfold number, Py.str_of_int. rewrite NilZero.isi.
  - simpl. by rewrite DecimalZ.of_to.
  - destruct n as [|p|p]; simpl; try done.
    intros [= H]. by apply (Unsigned.to_uint_nonnil p).
  - destruct n as [|p|p]; simpl; try done.
    intros [= H]. by apply (Unsigned.to_uint_nonnil p).
Qed.

(** The character after a value ends it. *)
Lemma step_finish v stack c : step (finish v stack) c = step_after (finish v stack) c.
Proof.
  unfold finish. destruct stack as [|[items|items|items key] s]; simpl; try reflexivity.
  unfold step_after. destruct (is_ws c); reflexivity.
Qed.

Lemma step_pending o stack c :
  is_digit c = false →
  step (pending o stack) c = step_after (finish (reread o) stack) c.
Proof.
  intros Hc. destruct o as [n|s|items|items]; try apply step_finish.
  simpl. by rewrite Hc, number_str_of_int.
Qed.

End ReaderFacts.

Section ReadBack.
Import Reader ReaderFacts.

Lemma run_value_then o level stack c rest :
  reads o → is_digit c = false →
  run (St Value stack) (Json.dumps level o +:+ String c rest)
  = run (step_after (finish (reread o) stack) c) rest.
Proof.
  intros Ho Hc. by rewrite run_app, Ho, run_String, step_pending.
Qed.

Lemma run_key_then items stack k rest :
  run (St KeyStart (FDict items :: stack)) (Json.encode_basestring_ascii k +:+ ": " +:+ rest)
  = run (St Value (FMember items (unescape (Json.escape k)) :: stack)) rest.
Proof. by rewrite <- append_assoc, run_app, run_key. Qed.

Lemma run_indent_then st n rest :
  skips_ws st → run st (Json.newline_indent n +:+ rest) = run st rest.
Proof. intros Hst. by rewrite run_app, (run_ws _ _ Hst (newline_indent_is_ws n)). Qed.

Lemma String_append c s : String c s = String c "" +:+ s.
Proof. done. Qed.

Lemma join_single sep (x : string) : Json.join sep [x] = x.
Proof. done. Qed.

Lemma join_cons_map {A} sep (x : string) (f : A → string) y l :
  Json.join sep (x :: List.map f (y :: l)) = x +:+ sep +:+ Json.join sep (List.map f (y :: l)).
Proof. done. Qed.

Lemma run_list_items level stack items :
  Forall reads items →
  ∀ o collected, reads o →
    run (St Value (FList collected :: stack))
        (Json.join ("," +:+ Json.newline_indent (S level))
                   (List.map (Json.dumps (S level)) (o :: items))
           +:+ Json.newline_indent level +:+ "]")
    = finish (Json.List (collected ++ reread o :: List.map reread items)) stack.
Proof.
  induction 1 as [|o' items Ho' _ IH]; intros o collected Ho.
  - rewrite (map_cons _ o), join_single.
    unfold Json.newline_indent at 1. unfold Py.nl.
    rewrite append_assoc, append_String, append_empty.
    rewrite run_value_then by done.
    cbn [finish]. unfold step_after at 1. cbn [is_ws N_of_ascii ascii_of_nat].
    change (is_ws (ascii_of_nat 10)) with true. cbv iota.
    rewrite run_app, (run_ws _ _ (skips_ws_after _) (indent_is_ws level)).
    reflexivity.
  - rewrite (map_cons _ o), join_cons_map.
    rewrite !append_assoc, append_String, append_empty.
    rewrite run_value_then by done.
    cbn [finish].
    change (step_after (St AfterItem (FList (collected ++ [reread o]) :: stack)) ",")
      with (St Value (FList (collected ++ [reread o]) :: stack)).
    rewrite run_indent_then by apply skips_ws_value.
    rewrite IH by done. by rewrite (map_cons _ o'), <- app_assoc.
Qed.

Lemma run_dict_items level stack items :
  Forall (λ kv, reads kv.2) items →
  ∀ k o collected, reads o →
    run (St KeyStart (FDict collected :: stack))
        (Json.join ("," +:+ Json.newline_indent (S level))
                   (List.map (λ kv, let '(k, v) := kv in
                      Json.encode_basestring_ascii k +:+ ": " +:+ Json.dumps (S level) v)
                      ((k, o) :: items))
           +:+ Json.newline_indent level +:+ "}")
    = finish (Json.Dict (collected
                ++ (unescape (Json.escape k), reread o)
                   :: List.map (λ kv, let '(k, v) := kv in
                        (unescape (Json.escape k), reread v)) items)) stack.
Proof.
  induction 1 as [|[k' o'] items Ho' _ IH]; intros k o collected Ho.
  - rewrite (map_cons _ (k, o)), join_single. cbv beta iota.
    rewrite !append_assoc, run_key_then.
    unfold Json.newline_indent at 1. unfold Py.nl.
    rewrite append_assoc, append_String, append_empty.
    rewrite run_value_then by done.
    cbn [finish]. unfold step_after at 1.
    change (is_ws (ascii_of_nat 10)) with true. cbv iota.
    rewrite run_app, (run_ws _ _ (skips_ws_after _) (indent_is_ws level)).
    reflexivity.
  - rewrite (map_cons _ (k, o)), join_cons_map. cbv beta iota.
    rewrite !append_assoc, run_key_then.
    rewrite append_String, append_empty.
    rewrite run_value_then by done.
    cbn [finish].
    change (step_after (St AfterItem
              (FDict (collected ++ [(unescape (Json.escape k), reread o)]) :: stack)) ",")
      with (St KeyStart
              (FDict (collected ++ [(unescape (Json.escape k), reread o)]) :: stack)).
    rewrite run_indent_then by apply skips_ws_key.
    cbn [snd] in Ho'. rewrite IH by done.
    rewrite (map_cons _ (k', o')). cbv beta iota. by rewrite <- app_assoc.
Qed.

(** The reader goes through the text of every value. *)
Lemma reads_all o : reads o.
Proof.
  induction o as [n|s|items IH|items IH] using json_ind; intros level stack.
  - apply run_int.
  - apply run_string.
  - destruct items as [|o items]; [reflexivity|].
    apply Forall_cons in IH as [Ho IH].
    cbn [Json.dumps]. rewrite append_String, append_empty, run_String.
    change (step (St Value stack) "[") with (St Value (FList [] :: stack)).
    rewrite run_indent_then by apply skips_ws_value.
    by rewrite run_list_items.
  - destruct items as [|[k o] items]; [reflexivity|].
    apply Forall_cons in IH as [Ho IH]. cbn [snd] in Ho.
    cbn [Json.dumps]. rewrite append_String, append_empty, run_String.
    change (step (St Value stack) "{") with (St KeyStart (FDict [] :: stack)).
    rewrite run_indent_then by apply skips_ws_key.
    by rewrite run_dict_items.
Qed.

(** Every text [json.dump] writes is read back as the tree it was written
    from, with its strings decoded. *)
Lemma loads_dumps o level : loads (Json.dumps level o) = Some (reread o).
Proof.
  unfold loads. rewrite reads_all.
  destruct o as [n|s|items|items]; try reflexivity.
  simpl. by rewrite number_str_of_int.
Qed.

End ReadBack.

(** A summary has plain keys and no string: it is read back as it is. *)
Lemma reread_summary t :
  reread (summary_to_json (summary_dict t)) = summary_to_json (summary_dict t).
Proof. reflexivity. Qed.

Lemma summary_of_report generated_at region instances alarms t :
  Reader.summary (reread (report_of generated_at region instances alarms (summary_dict t)))
  = Some (summary_dict t).
Proof. reflexivity. Qed.

(** ** The persisted report *)

Lemma save_report_writes open_error generated_at filename region instances alarms summary :
  writes (save_report open_error generated_at filename region instances alarms summary)
  = match open_error with
    | None =>
        [(filename, Json.dumps 0 (report_of generated_at region instances alarms summary))]
    | Some _ => []
    end.
Proof. by destruct open_error. Qed.

(** C5: the report file [save_report] writes is read back with the
    summary it was given: whenever a file is written (it is, with the
    whole report, unless [open] fails), parsing its content gives a
    document whose summary is the original one, whatever the values of the
    five integer fields and whatever the other parts of the report hold.
    The text of a summary alone, at any nesting depth, is read back
    unchanged too. *)
Theorem summary_round_trip (t : tallies) generated_at filename region instances alarms :
  writes (save_report None generated_at filename region instances alarms (summary_dict t))
  = [(filename,
      Json.dumps 0 (report_of generated_at region instances alarms (summary_dict t)))]
  ∧ (∀ open_error name content,
       (name, content)
         ∈ writes (save_report open_error generated_at filename region instances alarms
                     (summary_dict t)) →
       ∃ document,
         Reader.loads content = Some document
         ∧ Reader.summary document = Some (summary_dict t))
  ∧ (∀ level,
       Reader.loads (Json.dumps level (summary_to_json (summary_dict t)))
       = Some (summary_to_json (summary_dict t))).
Proof.
  split_and!.
  - done.
  - intros open_error name content Hin. rewrite save_report_writes in Hin.
    destruct open_error as [exception|]; [by apply elem_of_nil in Hin|].
    apply list_elem_of_singleton in Hin.
    apply (f_equal snd) in Hin. cbn [snd] in Hin. rewrite Hin.
    eexists. split; [apply loads_dumps|]. apply summary_of_report.
  - intros level. by rewrite loads_dumps, reread_summary.
Qed.

(** A report with a name outside ASCII, a quote and a backslash is read
    back as the tree it was written from, and its summary is the one
    [generate_summary] returned. *)
Example round_trip_sample :
  let instances := [record_of "i-01" "wéb🛑" "running"; record_of "i-02" "a\b" "pending"] in
  let alarms := [alarm_of ("cpu " +:+ Json.quote +:+ "high" +:+ Json.quote) "ALARM"] in
  let summary := value (generate_summary instances alarms) in
  let report := report_of "2024-05-01T09:30:00.123456" "eu-west-1" instances alarms summary in
  Reader.loads (Json.dumps 0 report) = Some report
  ∧ Reader.summary report = Some summary
  ∧ summary = [ ("total_instances", 2); ("running_instances", 1); ("stopped_instances", 0);
                ("total_alarms", 1); ("active_alarms", 1) ].
Proof. vm_compute. done. Qed.

(** * Further properties of the program *)

(** ** Traces *)

Lemma trace_bind {A B} (m : IO A) (k : A → IO B) :
  trace (m ≫= k) = trace m ++ trace (k (value m)).
Proof. done. Qed.

Lemma writes_bind {A B} (m : IO A) (k : A → IO B) :
  writes (m ≫= k) = writes m ++ writes (k (value m)).
Proof. unfold writes. simpl. by rewrite omap_app. Qed.

Lemma writes_print text : writes (print text) = [].
Proof. done. Qed.

(** ** What the two checks print and return *)

Lemma ec2_loop_printed l acc :
  printed (for_each l ec2_instance_body acc)
  = concat (instance_lines <$> (make_instance_info <$> l)).
Proof.
  revert acc. induction l as [|x l IH]; intros acc; cbn [for_each]; [done|].
  rewrite printed_bind, IH. done.
Qed.

Lemma ec2_reservations_printed rs acc :
  printed (for_each rs (λ r a, for_each (Instances r) ec2_instance_body a) acc)
  = concat (instance_lines <$> (make_instance_info <$> concat (Instances <$> rs))).
Proof.
  revert acc. induction rs as [|r rs IH]; intros acc; cbn [for_each]; [done|].
  rewrite printed_bind, IH, ec2_loop_printed. simpl.
  by rewrite !fmap_app, concat_app.
Qed.

Lemma ec2_loop_writes l acc : writes (for_each l ec2_instance_body acc) = [].
Proof.
  revert acc. induction l as [|x l IH]; intros acc; cbn [for_each]; [done|].
  rewrite writes_bind, IH. done.
Qed.

Lemma ec2_reservations_writes rs acc :
  writes (for_each rs (λ r a, for_each (Instances r) ec2_instance_body a) acc) = [].
Proof.
  revert acc. induction rs as [|r rs IH]; intros acc; cbn [for_each]; [done|].
  by rewrite writes_bind, IH, ec2_loop_writes.
Qed.

Lemma value_and_then {A B} (m : IO (outcome A)) (k : A → IO (outcome B)) :
  value (and_then m k)
  = match value m with
    | Returned a => value (k a)
    | Raised exception => Raised exception
    end.
Proof. unfold and_then. rewrite value_bind. by destruct (value m). Qed.

Lemma printed_and_then {A B} (m : IO (outcome A)) (k : A → IO (outcome B)) :
  printed (and_then m k)
  = printed m ++ match value m with
                 | Returned a => printed (k a)
                 | Raised _ => []
                 end.
Proof. unfold and_then. rewrite printed_bind. by destruct (value m). Qed.

Lemma writes_and_then {A B} (m : IO (outcome A)) (k : A → IO (outcome B)) :
  writes (and_then m k)
  = writes m ++ match value m with
                | Returned a => writes (k a)
                | Raised _ => []
                end.
Proof. unfold and_then. rewrite writes_bind. by destruct (value m). Qed.

(** The loop over the alarms stops at the first alarm without a
    [MetricName]. *)
Lemma alarm_loop_value l acc :
  value (for_each_raising l alarm_body acc)
  = if decide (Forall (λ alarm, is_Some (MetricName alarm)) l)
    then Returned (acc ++ alarm_prefix l)
    else Raised "KeyError".
Proof.
  revert acc. induction l as [|x l IH]; intros acc.
  - rewrite decide_True by constructor. simpl. by rewrite app_nil_r.
  - cbn [for_each_raising alarm_prefix]. rewrite value_and_then.
    unfold alarm_body, make_alarm_info.
    destruct (MetricName x) as [metric|] eqn:Hx.
    + rewrite !value_bind. cbn [value mret IO_ret]. rewrite IH.
      destruct (decide (Forall (λ alarm, is_Some (MetricName alarm)) l)) as [Hl|Hl].
      * rewrite decide_True by (constructor; [by rewrite Hx|done]).
        by rewrite <- app_assoc.
      * rewrite decide_False; [done|]. by intros [_ ?]%Forall_cons.
    + rewrite decide_False; [done|].
      intros [[? Hs] _]%Forall_cons. by rewrite Hx in Hs.
Qed.


Lemma alarm_loop_writes l acc : writes (for_each_raising l alarm_body acc) = [].
Proof.
  revert acc. induction l as [|x l IH]; intros acc; [done|].
  cbn [for_each_raising]. rewrite writes_and_then.
  unfold alarm_body, make_alarm_info.
  destruct (MetricName x) as [metric|]; [|done].
  rewrite !value_bind. cbn [value mret IO_ret]. rewrite IH.
  by rewrite !writes_bind, !writes_print.
Qed.

Lemma check_cloudwatch_alarms_value metric_alarms :
  value (check_cloudwatch_alarms (Response metric_alarms))
  = if decide (Forall (λ alarm, is_Some (MetricName alarm)) metric_alarms)
    then Returned (alarm_prefix metric_alarms)
    else Raised "KeyError".
Proof.
  unfold check_cloudwatch_alarms. rewrite !value_bind, value_and_then.
  rewrite alarm_loop_value. by case_decide.
Qed.

Lemma alarm_prefix_lookup l n alarm :
  Forall (λ alarm, is_Some (MetricName alarm)) l →
  l !! n = Some alarm →
  ∃ info, make_alarm_info alarm = Returned info ∧ alarm_prefix l !! n = Some info.
Proof.
  intros Hall. revert n. induction Hall as [|x l [metric Hx] _ IH]; intros n Hn; [done|].
  cbn [alarm_prefix]. unfold make_alarm_info at 2. rewrite Hx.
  destruct n as [|n]; simpl in Hn.
  - injection Hn as ->. eexists. split; [|done]. unfold make_alarm_info. by rewrite Hx.
  - apply IH in Hn as (info & Hinfo & Hlookup). by exists info.
Qed.

Lemma alarm_prefix_length l :
  Forall (λ alarm, is_Some (MetricName alarm)) l → length (alarm_prefix l) = length l.
Proof.
  induction 1 as [|x l [metric Hx] _ IH]; [done|].
  cbn [alarm_prefix]. unfold make_alarm_info. rewrite Hx. simpl. by rewrite IH.
Qed.

(** X1: when every alarm of the response has a [MetricName], the alarm
    check returns one record per alarm, in the order of the response; each
    record carries the alarm's name, state and metric unchanged, and its
    description, or "No description" when the alarm has none.  When some
    alarm has no [MetricName] (an alarm on a metric math expression), the
    check ends with a [KeyError] and returns nothing. *)
Theorem alarm_records_follow_response metric_alarms :
  (Forall (λ alarm, is_Some (MetricName alarm)) metric_alarms →
   ∃ infos,
     value (check_cloudwatch_alarms (Response metric_alarms)) = Returned infos
     ∧ length infos = length metric_alarms
     ∧ ∀ n alarm,
         metric_alarms !! n = Some alarm →
         ∃ info,
           infos !! n = Some info
           ∧ a_name info = AlarmName alarm
           ∧ a_state info = StateValue alarm
           ∧ MetricName alarm = Some (a_metric info)
           ∧ a_description info
             = match AlarmDescription alarm with
               | Some text => text
               | None => "No description"
               end)
  ∧ (Exists (λ alarm, MetricName alarm = None) metric_alarms →
     value (check_cloudwatch_alarms (Response metric_alarms)) = Raised "KeyError").
Proof.
  rewrite check_cloudwatch_alarms_value. split.
  - intros Hall. rewrite decide_True by done.
    exists (alarm_prefix metric_alarms). split_and!; [done|by apply alarm_prefix_length|].
    intros n alarm Hn.
    destruct (alarm_prefix_lookup _ _ _ Hall Hn) as (info & Hinfo & Hlookup).
    exists info. split; [done|].
    unfold make_alarm_info in Hinfo.
    destruct (MetricName alarm) as [metric|]; [|done].
    injection Hinfo as <-. by split_and!.
  - intros Hex. rewrite decide_False; [done|].
    intros Hall. apply Exists_exists in Hex as (alarm & Hin & Hnone).
    rewrite Forall_forall in Hall. destruct (Hall _ Hin) as [metric Hm]. congruence.
Qed.

(** An alarm on a metric math expression between two ordinary alarms. *)
Example alarm_without_metric_name :
  value (check_cloudwatch_alarms (Response sample_alarms)) = Raised "KeyError"
  ∧ printed (check_cloudwatch_alarms (Response sample_alarms))
    = [ Py.nl +:+ rule; "CLOUDWATCH ALARM STATUS"; rule;
        "🚨 cpu-high"; "   State: ALARM, Metric: CPUUtilization" ].
Proof. done. Qed.

(** X2: the instance check prints its three header lines, then two lines
    per instance in the order of the response (reservation by reservation),
    and the "No EC2 instances found" line exactly when the response holds
    no instance. *)
Theorem ec2_report_lines reservations :
  printed (check_ec2_instances (Response reservations))
  = [Py.nl +:+ rule; "EC2 INSTANCE STATUS"; rule]
    ++ concat (instance_lines
                 <$> (make_instance_info <$> concat (Instances <$> reservations)))
    ++ (if decide (concat (Instances <$> reservations) = [])
        then ["ℹ️  No EC2 instances found in this region."] else []).
Proof.
  unfold check_ec2_instances.
  repeat (rewrite printed_bind, printed_print).
  rewrite !printed_bind, printed_ret, app_nil_r.
  rewrite ec2_reservations_printed, ec2_reservations_value. simpl.
  do 4 f_equal.
  destruct (concat (Instances <$> reservations)) as [|i l]; done.
Qed.


(** ** The assessment read off the two lists *)

Section CountingMore.
Context {A : Type} (P : A → Prop) `{∀ x, Decision (P x)}.

Lemma count_pos_iff (l : list A) : (0 < length (filter P l))%nat ↔ Exists P l.
Proof.
  induction l as [|x l IH]; simpl.
  - split; [lia | by intros ?%Exists_nil].
  - rewrite filter_cons, Exists_cons. case_decide; simpl; [|tauto].
    split; [tauto | lia].
Qed.

Lemma count_all_iff (l : list A) : length (filter P l) = length l ↔ Forall P l.
Proof.
  induction l as [|x l IH]; simpl.
  - split; [constructor | done].
  - rewrite filter_cons, Forall_cons. pose proof (length_filter P l).
    case_decide; simpl.
    + rewrite <- IH. split; [intros [=]; done | intros [_ ->]; done].
    + split; [lia | tauto].
Qed.

Lemma count_zero_iff (l : list A) : length (filter P l) = 0%nat ↔ Forall (λ x, ¬ P x) l.
Proof.
  induction l as [|x l IH]; simpl.
  - split; [constructor | done].
  - rewrite filter_cons, Forall_cons. case_decide; simpl.
    + split; [done | tauto].
    + rewrite IH. tauto.
Qed.
End CountingMore.

(** The assessment as a chain over the counts of the two lists. *)
Lemma assessment_counts instances alarms :
  assessment (tally instances alarms)
  = if decide (0 < length (filter (λ a, a_state a = "ALARM") alarms))%nat then msg_attention
    else if decide (length (filter (λ i, i_state i = "running") instances) = length instances
                    ∧ instances ≠ [])
    then msg_healthy
    else if decide (instances = [] ∧ alarms = []) then msg_no_resources
    else msg_partial.
Proof.
  unfold assessment. simpl. rewrite !sum_ones_if. unfold Py.len.
  assert (Hnil : ∀ {B} (l : list B), l = [] ↔ Z.of_nat (length l) = 0).
  { intros B l. destruct l; simpl; [done|]. split; [done | lia]. }
  repeat case_decide; try done; exfalso;
    unfold not in *; rewrite ?Hnil in *; lia.
Qed.

Lemma nil_iff_length {B} (l : list B) : l = [] ↔ length l = 0%nat.
Proof. destruct l; simpl; split; done. Qed.

(** X4: the ATTENTION message is the assessment exactly when some alarm is
    in state ALARM, whatever the instances are. *)
Theorem attention_iff instances alarms :
  assessment (tally instances alarms) = msg_attention
  ↔ Exists (λ a, a_state a = "ALARM") alarms.
Proof.
  rewrite assessment_counts.
  rewrite <- (count_pos_iff (λ a, a_state a = "ALARM") alarms).
  repeat case_decide; split; intros; done.
Qed.

(** X5: "ALL SYSTEMS HEALTHY" is the assessment exactly when there is at
    least one instance, every instance is running and no alarm is in state
    ALARM; alarms in any other state, INSUFFICIENT_DATA included, do not
    prevent it. *)
Theorem healthy_iff instances alarms :
  assessment (tally instances alarms) = msg_healthy
  ↔ instances ≠ []
    ∧ Forall (λ i, i_state i = "running") instances
    ∧ Forall (λ a, a_state a ≠ "ALARM") alarms.
Proof.
  rewrite assessment_counts.
  rewrite <- (count_all_iff (λ i, i_state i = "running") instances).
  rewrite <- (count_zero_iff (λ a, a_state a = "ALARM") alarms).
  repeat case_decide; split; intros; try done; try (exfalso; tauto || lia).
  split_and!; [tauto | tauto | lia].
Qed.

(** X6: "No resources found to monitor" is the assessment exactly when both
    lists are empty. *)
Theorem no_resources_iff instances alarms :
  assessment (tally instances alarms) = msg_no_resources
  ↔ instances = [] ∧ alarms = [].
Proof.
  rewrite assessment_counts.
  repeat case_decide; split; intros Hx; try done; exfalso.
  - destruct Hx as [_ ->]. simpl in *. lia.
  - destruct Hx as [-> _]. tauto.
Qed.

(** X7: "Some instances are not running" is the assessment exactly when no
    alarm is in state ALARM and either some instance is not running or
    there is no instance at all but at least one alarm: the message is
    also printed for an account without any instance. *)
Theorem partial_iff instances alarms :
  assessment (tally instances alarms) = msg_partial
  ↔ Forall (λ a, a_state a ≠ "ALARM") alarms
    ∧ (Exists (λ i, i_state i ≠ "running") instances
       ∨ (instances = [] ∧ alarms ≠ [])).
Proof.
  rewrite assessment_counts.
  rewrite <- (count_zero_iff (λ a, a_state a = "ALARM") alarms).
  assert (Hrun : Forall (λ i, i_state i = "running") instances
                 ∨ Exists (λ i, i_state i ≠ "running") instances).
  { induction instances as [|i l IH]; [left; constructor|].
    destruct (decide (i_state i = "running")) as [Hi|Hi]; [|right; by left].
    destruct IH as [IH|IH]; [left; by constructor | right; by right]. }
  assert (Hexcl : Forall (λ i, i_state i = "running") instances →
                  Exists (λ i, i_state i ≠ "running") instances → False).
  { intros Hall Hex. apply Exists_exists in Hex as (i & Hin & Hne).
    rewrite Forall_forall in Hall. by apply Hne, Hall. }
  rewrite <- (count_all_iff (λ i, i_state i = "running") instances) in *.
  repeat case_decide; split; intros Hx; try done.
  - exfalso. lia.
  - exfalso. destruct Hx as [_ [Hex | [Hnil _]]]; tauto.
  - exfalso. destruct Hx as [_ [Hex | [_ Ha]]]; [|tauto].
    destruct H1 as [-> _]. by apply Exists_nil in Hex.
  - split; [lia|].
    destruct Hrun as [Hall|Hex]; [|by left].
    right. destruct (decide (instances = [])) as [->|Hne]; [|tauto].
    split; [done|]. intros ->. tauto.
Qed.

(** ** Tallies of concatenated lists *)

(** X8: the tallies are additive: for lists put end to end (the instances
    of several reservations, say) every count is the sum of the counts of
    the parts. *)
Theorem tally_app instances1 instances2 alarms1 alarms2 :
  let t := tally (instances1 ++ instances2) (alarms1 ++ alarms2) in
  let t1 := tally instances1 alarms1 in
  let t2 := tally instances2 alarms2 in
  total_instances t = total_instances t1 + total_instances t2
  ∧ running t = running t1 + running t2
  ∧ stopped t = stopped t1 + stopped t2
  ∧ other t = other t1 + other t2
  ∧ total_alarms t = total_alarms t1 + total_alarms t2
  ∧ alarming t = alarming t1 + alarming t2
  ∧ ok_alarms t = ok_alarms t1 + ok_alarms t2.
Proof.
  simpl. rewrite !sum_ones_if, !filter_app. unfold Py.len.
  rewrite !length_app. split_and!; lia.
Qed.

(** ** The "Other" line of the summary *)

Lemma generate_summary_printed instances alarms :
  let t := tally instances alarms in
  printed (generate_summary instances alarms)
  = [ Py.nl +:+ rule; "SUMMARY"; rule;
      Py.nl +:+ "📊 EC2 Instances:";
      "   Total: " +:+ Py.str_of_int (total_instances t);
      "   Running: " +:+ Py.str_of_int (running t);
      "   Stopped: " +:+ Py.str_of_int (stopped t) ]
    ++ (if decide (other t > 0) then ["   Other: " +:+ Py.str_of_int (other t)] else [])
    ++ [ Py.nl +:+ "📊 CloudWatch Alarms:";
         "   Total: " +:+ Py.str_of_int (total_alarms t);
         "   OK: " +:+ Py.str_of_int (ok_alarms t);
         "   In Alarm: " +:+ Py.str_of_int (alarming t);
         Py.nl +:+ rule; assessment t; rule ].
Proof.
  intros t. unfold generate_summary. fold t.
  repeat (rewrite printed_bind, printed_print).
  rewrite printed_bind.
  repeat (rewrite printed_bind, printed_print).
  rewrite printed_ret. simpl. do 7 f_equal.
  by case_decide.
Qed.

Lemma assessment_not_other t text : assessment t ≠ "   Other: " +:+ text.
Proof. unfold assessment. repeat case_decide; done. Qed.

(** X9: the summary prints an "Other" line exactly when some instance is
    neither running nor stopped, and the line then shows the number of
    these instances. *)
Theorem other_line_iff instances alarms :
  let rest := filter (λ i, ¬ i_state i = "running" ∧ ¬ i_state i = "stopped") instances in
  ("   Other: " +:+ Py.str_of_int (Z.of_nat (length rest))
     ∈ printed (generate_summary instances alarms)
   ↔ rest ≠ [])
  ∧ (∀ text, "   Other: " +:+ text ∈ printed (generate_summary instances alarms) →
       text = Py.str_of_int (Z.of_nat (length rest))).
Proof.
  intros rest. rewrite generate_summary_printed.
  pose proof (other_counts_the_rest instances alarms) as Ho. fold rest in Ho.
  assert (Hlines : ∀ text,
    "   Other: " +:+ text
      ∈ [ Py.nl +:+ rule; "SUMMARY"; rule; Py.nl +:+ "📊 EC2 Instances:";
          "   Total: " +:+ Py.str_of_int (total_instances (tally instances alarms));
          "   Running: " +:+ Py.str_of_int (running (tally instances alarms));
          "   Stopped: " +:+ Py.str_of_int (stopped (tally instances alarms)) ]
        ++ (if decide (other (tally instances alarms) > 0)
            then ["   Other: " +:+ Py.str_of_int (other (tally instances alarms))] else [])
        ++ [ Py.nl +:+ "📊 CloudWatch Alarms:";
             "   Total: " +:+ Py.str_of_int (total_alarms (tally instances alarms));
             "   OK: " +:+ Py.str_of_int (ok_alarms (tally instances alarms));
             "   In Alarm: " +:+ Py.str_of_int (alarming (tally instances alarms));
             Py.nl +:+ rule; assessment (tally instances alarms); rule ]
    ↔ other (tally instances alarms) > 0
      ∧ text = Py.str_of_int (other (tally instances alarms))).
  { intros text. rewrite !elem_of_app, !elem_of_cons, !elem_of_nil.
    pose proof (assessment_not_other (tally instances alarms) text) as Hne.
    split.
    - intros [H|[H|H]].
      + exfalso. destruct H as [H|[H|[H|[H|[H|[H|[H|[]]]]]]]]; discriminate H.
      + case_decide; [|by apply elem_of_nil in H].
        apply list_elem_of_singleton in H. split; [done|].
        by apply (inj (String.append "   Other: ")) in H.
      + exfalso. destruct H as [H|[H|[H|[H|[H|[H|[H|[]]]]]]]];
          try discriminate H. by symmetry in H.
    - intros [Hpos ->]. right; left. rewrite decide_True by done.
      by apply list_elem_of_singleton. }
  split.
  - rewrite Hlines, Ho. split.
    + intros [Hpos _] Hnil. rewrite Hnil in Hpos. simpl in Hpos. lia.
    + intros Hne. split; [|done]. destruct rest; [done|]. simpl. lia.
  - intros text [_ ->]%Hlines. by rewrite Ho.
Qed.

(** ** The whole run *)

Lemma check_ec2_instances_writes call : writes (check_ec2_instances call) = [].
Proof.
  unfold check_ec2_instances. destruct call as [rs| |message|exception]; [|done|done|done].
  rewrite !writes_bind, !writes_print, ec2_reservations_writes. simpl.
  by case_decide.
Qed.

Lemma check_cloudwatch_alarms_writes call : writes (check_cloudwatch_alarms call) = [].
Proof.
  unfold check_cloudwatch_alarms. destruct call as [l| |message|exception]; [|done|done|done].
  rewrite !writes_bind, !writes_print, writes_and_then, alarm_loop_writes.
  destruct (value (for_each_raising l alarm_body [])) as [alarms|exception]; [|done].
  rewrite !writes_bind. cbn [app]. by case_decide.
Qed.

Lemma generate_summary_writes instances alarms :
  writes (generate_summary instances alarms) = [].
Proof. unfold generate_summary. rewrite !writes_bind, !writes_print. by case_decide. Qed.

Lemma check_ec2_instances_failed call :
  failed call = true →
  value (check_ec2_instances call) = Returned []
  ∧ ("ℹ️  No EC2 instances found in this region." ∉ printed (check_ec2_instances call)).
Proof.
  destruct call as [rs| |message|exception]; [done| | |done]; intros _; (split; [done|]).
  - intros Hin. vm_compute in Hin.
    repeat (apply elem_of_cons in Hin as [Hin|Hin]; [discriminate Hin|]).
    by apply elem_of_nil in Hin.
  - intros Hin. unfold check_ec2_instances in Hin.
    repeat (rewrite printed_bind, printed_print in Hin).
    rewrite printed_ret in Hin.
    repeat (apply elem_of_cons in Hin as [Hin|Hin]; [discriminate Hin|]).
    by apply elem_of_nil in Hin.
Qed.

Lemma check_cloudwatch_alarms_failed call :
  failed call = true → value (check_cloudwatch_alarms call) = Returned [].
Proof. by destruct call. Qed.

Lemma main_unfold w a :
  main w a
  = (print (Py.nl +:+ rule);;
     print "🔍 AWS HEALTH CHECKER";;
     print rule;;
     print ("📅 Report Time: " +:+ report_time w);;
     print ("🌍 Region: " +:+ region a);;
     instances <~ check_ec2_instances (describe_instances w (region a));
     alarms <~ check_cloudwatch_alarms (describe_alarms w (region a));
     _ ← generate_summary instances alarms;
     report_step w a instances alarms).
Proof. done. Qed.

Lemma report_step_writes w a instances alarms :
  writes (report_step w a instances alarms)
  = match output a with
    | Some filename =>
        if decide (filename = "") then []
        else match open_error w filename with
             | None =>
                 [ (filename,
                    Json.dumps 0 (report_of (generated_at w) (region a) instances alarms
                                    (summary_dict (tally instances alarms)))) ]
             | Some _ => []
             end
    | None => []
    end.
Proof.
  unfold report_step. rewrite writes_and_then, generate_summary_value.
  destruct (output a) as [filename|]; [|done].
  case_decide; [done|].
  rewrite save_report_writes. by destruct (open_error w filename).
Qed.






(** X12: when both fetches fail (missing credentials or an API error),
    both checks return the empty list without printing their "none found"
    line for instances, the run goes on, prints "No resources found to
    monitor" as for an empty account, and any report written holds two
    empty lists and an all-zero summary. *)
Theorem failed_fetches_look_empty w a :
  failed (describe_instances w (region a)) = true →
  failed (describe_alarms w (region a)) = true →
  value (check_ec2_instances (describe_instances w (region a))) = Returned []
  ∧ value (check_cloudwatch_alarms (describe_alarms w (region a))) = Returned []
  ∧ ("ℹ️  No EC2 instances found in this region."
       ∉ printed (check_ec2_instances (describe_instances w (region a))))
  ∧ msg_no_resources ∈ printed (main w a)
  ∧ (∀ filename content,
       (filename, content) ∈ writes (main w a) →
       content
       = Json.dumps 0
           (report_of (generated_at w) (region a) [] []
              [ ("total_instances", 0); ("running_instances", 0);
                ("stopped_instances", 0); ("total_alarms", 0); ("active_alarms", 0) ])).
Proof.
  intros Hi Ha.
  destruct (check_ec2_instances_failed _ Hi) as [Hvi Hnone].
  pose proof (check_cloudwatch_alarms_failed _ Ha) as Hva.
  split_and!; try done.
  - rewrite main_unfold.
    repeat (rewrite printed_bind, printed_print).
    rewrite printed_and_then, Hvi, printed_and_then, Hva, printed_bind.
    destruct (generate_summary_printed_end [] []) as [before ->].
    rewrite !elem_of_app. do 7 right. left. right.
    repeat constructor.
  - intros filename content Hin. rewrite main_unfold in Hin.
    repeat (rewrite writes_bind, writes_print in Hin).
    rewrite writes_and_then, check_ec2_instances_writes, Hvi in Hin.
    rewrite writes_and_then, check_cloudwatch_alarms_writes, Hva in Hin.
    rewrite writes_bind, generate_summary_writes, report_step_writes in Hin.
    cbn [app] in Hin.
    destruct (output a) as [f|]; [|by apply elem_of_nil in Hin].
    case_decide; [by apply elem_of_nil in Hin|].
    destruct (open_error w f); [by apply elem_of_nil in Hin|].
    apply list_elem_of_singleton in Hin.
    apply (f_equal snd) in Hin. cbn [snd] in Hin. by rewrite Hin.
Qed.

Lemma failed_fetches_look_empty_witness :
  let a := parse_args None (Some "report.json") in
  value (check_ec2_instances (describe_instances offline (region a))) = Returned []
  ∧ value (check_cloudwatch_alarms (describe_alarms offline (region a))) = Returned []
  ∧ ("ℹ️  No EC2 instances found in this region."
       ∉ printed (check_ec2_instances (describe_instances offline (region a))))
  ∧ msg_no_resources ∈ printed (main offline a)
  ∧ (∀ filename content,
       (filename, content) ∈ writes (main offline a) →
       content
       = Json.dumps 0
           (report_of (generated_at offline) (region a) [] []
              [ ("total_instances", 0); ("running_instances", 0);
                ("stopped_instances", 0); ("total_alarms", 0); ("active_alarms", 0) ])).
Proof.
  apply (failed_fetches_look_empty offline (parse_args None (Some "report.json")));
    reflexivity.
Defined.

(** ** The bytes of the report *)

Lemma all_chars_weaken s :
  all_chars printable s = true → all_chars printable_or_nl s = true.
Proof.
  induction s as [|c s IH]; [done|]. simpl.
  intros [Hc Hs]%andb_true_iff. rewrite IH by done.
  unfold printable_or_nl. by rewrite Hc.
Qed.

Lemma printable_ascii_of_N n :
  (32 ≤ n ≤ 126)%N → printable (ascii_of_N n) = true.
Proof.
  intros Hn. unfold printable. cbv zeta.
  rewrite N_ascii_embedding by lia.
  apply andb_true_iff. split; apply N.leb_le; lia.
Qed.

Lemma hex_digit_printable n : (n < 16)%N → printable (Json.hex_digit n) = true.
Proof.
  intros Hn. unfold Json.hex_digit.
  destruct (N.ltb_spec n 10); apply printable_ascii_of_N; lia.
Qed.

Lemma u_escape_printable n : all_chars printable (Json.u_escape n) = true.
Proof.
  unfold Json.u_escape. rewrite all_chars_app. simpl.
  rewrite !hex_digit_printable; [done|..]; by apply N.mod_lt.
Qed.

Lemma escape_char_printable n : all_chars printable (Json.escape_char n) = true.
Proof.
  unfold Json.escape_char.
  repeat (case_match; [done|]).
  case_match.
  - simpl. rewrite printable_ascii_of_N; [done|].
    match goal with H : (_ && _)%bool = true |- _ =>
      apply andb_true_iff in H as [?%N.leb_le ?%N.leb_le] end. lia.
  - case_match; [apply u_escape_printable|].
    by rewrite all_chars_app, !u_escape_printable.
Qed.

Lemma escape_printable_upto k s :
  (String.length s ≤ k)%nat → all_chars printable (Json.escape s) = true.
Proof.
  revert s. induction k as [|k IH]; intros s Hk.
  - destruct s; [done|]. simpl in Hk. lia.
  - destruct s as [|b0 s1]; [done|]. cbn [Json.escape]. cbv zeta.
    simpl in Hk.
    case_match.
    { rewrite all_chars_app, escape_char_printable. apply IH. lia. }
    destruct s1 as [|b1 s2]; [done|]. simpl in Hk.
    case_match.
    { rewrite all_chars_app, escape_char_printable. apply IH. lia. }
    destruct s2 as [|b2 s3]; [done|]. simpl in Hk.
    case_match.
    { rewrite all_chars_app, escape_char_printable. apply IH. lia. }
    destruct s3 as [|b3 s4]; [done|]. simpl in Hk.
    rewrite all_chars_app, escape_char_printable. apply IH. lia.
Qed.

Lemma encode_printable s :
  all_chars printable (Json.encode_basestring_ascii s) = true.
Proof.
  unfold Json.encode_basestring_ascii.
  rewrite !all_chars_app, (escape_printable_upto (String.length s)) by done.
  done.
Qed.

Lemma uint_printable d : all_chars printable (NilEmpty.string_of_uint d) = true.
Proof. induction d; simpl; done. Qed.

Lemma str_of_int_printable n : all_chars printable (Py.str_of_int n) = true.
Proof.
  unfold Py.str_of_int.
  destruct (Z.to_int n) as [d|d]; simpl; destruct d; simpl; try done;
    apply uint_printable.
Qed.

Lemma newline_indent_ok level :
  all_chars printable_or_nl (Json.newline_indent level) = true.
Proof.
  unfold Json.newline_indent. rewrite all_chars_app. simpl.
  induction level as [|level IH]; [done|].
  cbn [Py.str_mul]. by rewrite all_chars_app, IH.
Qed.

Lemma join_ok sep chunks :
  all_chars printable_or_nl sep = true →
  Forall (λ c, all_chars printable_or_nl c = true) chunks →
  all_chars printable_or_nl (Json.join sep chunks) = true.
Proof.
  intros Hsep Hall. induction Hall as [|c rest Hc Hrest IH]; [done|].
  destruct rest as [|c' rest]; [done|].
  change (Json.join sep (c :: c' :: rest)) with (c +:+ sep +:+ Json.join sep (c' :: rest)).
  by rewrite !all_chars_app, Hc, Hsep, IH.
Qed.

(** X13: the text [json.dump] writes is plain ASCII, whatever the strings
    of the report hold: a string literal consists of printable ASCII
    characters only, and the text of any value of printable ASCII
    characters and line feeds; so does every file [save_report] writes, and
    it writes no file but the one it is asked for. *)
Theorem report_is_ascii :
  (∀ s, all_chars printable (Json.encode_basestring_ascii s) = true)
  ∧ (∀ o level, all_chars printable_or_nl (Json.dumps level o) = true)
  ∧ (∀ open_error generated_at filename region instances alarms summary name content,
       (name, content)
         ∈ writes (save_report open_error generated_at filename region instances alarms
                     summary) →
       name = filename ∧ all_chars printable_or_nl content = true).
Proof.
  assert (Hdumps : ∀ o level, all_chars printable_or_nl (Json.dumps level o) = true).
  { induction o as [n|s|items IH|items IH] using json_ind; intros level.
    - apply all_chars_weaken, str_of_int_printable.
    - apply all_chars_weaken, encode_printable.
    - cbn [Json.dumps]. destruct items as [|o items]; [done|].
      rewrite !all_chars_app, !newline_indent_ok, join_ok; [done| |].
      + by rewrite all_chars_app, newline_indent_ok.
      + apply Forall_fmap. eapply Forall_impl; [exact IH|].
        intros o' Ho'. unfold compose. apply Ho'.
    - cbn [Json.dumps]. destruct items as [|kv items]; [done|].
      rewrite !all_chars_app, !newline_indent_ok, join_ok; [done| |].
      + by rewrite all_chars_app, newline_indent_ok.
      + apply Forall_fmap. eapply Forall_impl; [exact IH|].
        intros [k o'] Ho'. cbn [snd] in Ho'. unfold compose.
        by rewrite !all_chars_app, (all_chars_weaken _ (encode_printable k)), Ho'. }
  split_and!.
  - apply encode_printable.
  - apply Hdumps.
  - intros open_error generated_at filename region instances alarms summary name content Hin.
    rewrite save_report_writes in Hin.
    destruct open_error as [exception|]; [by apply elem_of_nil in Hin|].
    apply list_elem_of_singleton in Hin.
    pose proof (f_equal fst Hin) as Hname. apply (f_equal snd) in Hin.
    cbn [fst snd] in *. split; [done|]. rewrite Hin. apply Hdumps.
Qed.

(** X14: a string of printable ASCII characters without quote and
    backslash (the keys of the report, instance ids, states, region names)
    is written as it is, between two quotes. *)
Theorem plain_strings_kept s :
  plain s = true →
  Json.encode_basestring_ascii s = Json.quote +:+ s +:+ Json.quote.
Proof.
  intros Hs. unfold Json.encode_basestring_ascii. by rewrite escape_plain.
Qed.

Lemma plain_strings_kept_witness :
  Json.encode_basestring_ascii "i-0abc123 (eu-west-1)"
  = Json.quote +:+ "i-0abc123 (eu-west-1)" +:+ Json.quote.
Proof. apply plain_strings_kept. reflexivity. Defined.

(** X15: the text written for a summary determines the summary: two
    summaries with the same text, at the same depth, are equal. *)
Theorem summary_text_determines_summary (t t' : tallies) (level : nat) :
  Json.dumps level (summary_to_json (summary_dict t))
  = Json.dumps level (summary_to_json (summary_dict t')) →
  summary_dict t = summary_dict t'.
Proof.
  intros Htext.
  pose proof (loads_dumps (summary_to_json (summary_dict t)) level) as Ht.
  pose proof (loads_dumps (summary_to_json (summary_dict t')) level) as Ht'.
  rewrite Htext, Ht', !reread_summary in Ht.
  apply (inj Some) in Ht. clear Htext Ht'.
  unfold summary_to_json, summary_dict in *. cbn [List.map fst snd] in Ht.
  congruence.
Qed.

Lemma summary_text_determines_summary_witness :
  summary_dict tallies_a = summary_dict tallies_b.
Proof. apply (summary_text_determines_summary tallies_a tallies_b 1). reflexivity. Defined.
